(** * A股新闻分析助手 (app.py): a shallow embedding and its properties

    The program is a Streamlit page that relays a news text to a streaming
    chat-completion endpoint.  The embedding keeps the structure of
    [app.py]: Python strings are sequences of code points, the session
    state, the logger, the outbound requests and the page are threaded
    through a state-and-exception monad, and everything the script obtains
    from outside (button values, streamed chunks, clock readings) comes
    from an explicit environment. *)

From Stdlib Require Import List String Ascii NArith ZArith Bool Arith Lia.
Import ListNotations.

Set Implicit Arguments.

(* ===================================================================== *)
(** ** Python strings *)
(* ===================================================================== *)

(** A Python [str] is a sequence of Unicode code points; [len] counts code
    points and [s[:n]] keeps the first [n] of them. *)
Definition char := N.
Definition str := list char.

Definition bytes_of (s : string) : list N :=
  List.map N_of_ascii (list_ascii_of_string s).

(** Literals are written as in the source file, which is UTF-8 encoded;
    [decode_utf8] turns the bytes of a literal into its code points. *)
Fixpoint decode_utf8 (bs : list N) : str :=
  match bs with
  | [] => []
  | b0 :: r0 =>
    if (b0 <? 128)%N then b0 :: decode_utf8 r0
    else if (b0 <? 224)%N then
      match r0 with
      | b1 :: r1 => ((b0 - 192) * 64 + (b1 - 128))%N :: decode_utf8 r1
      | _ => []
      end
    else if (b0 <? 240)%N then
      match r0 with
      | b1 :: b2 :: r2 =>
        ((b0 - 224) * 4096 + (b1 - 128) * 64 + (b2 - 128))%N :: decode_utf8 r2
      | _ => []
      end
    else
      match r0 with
      | b1 :: b2 :: b3 :: r3 =>
        ((b0 - 240) * 262144 + (b1 - 128) * 4096 + (b2 - 128) * 64 + (b3 - 128))%N
          :: decode_utf8 r3
      | _ => []
      end
  end.

Definition utf8 (s : string) : str := decode_utf8 (bytes_of s).

(** [\n] and the ASCII double quote, which a literal cannot hold directly. *)
Definition nl : char := 10%N.
Definition dquote : char := 34%N.

(** [len(s)]. *)
Definition len (s : str) : nat := List.length s.

(** Truthiness of a string: [if s:] holds exactly for a non-empty one. *)
Definition truthy (s : str) : bool :=
  match s with [] => false | _ :: _ => true end.

(** [s.split(sep)] for a one-character separator: one more piece than
    there are separators, pieces possibly empty. *)
Fixpoint split (sep : char) (s : str) : list str :=
  match s with
  | [] => [[]]
  | c :: s' =>
    if (c =? sep)%N then [] :: split sep s'
    else match split sep s' with
         | l :: ls => (c :: l) :: ls
         | [] => [[c]]
         end
  end.

(** [sep.join(pieces)]. *)
Fixpoint join (sep : str) (pieces : list str) : str :=
  match pieces with
  | [] => []
  | p :: ps =>
    match ps with
    | [] => p
    | _ :: _ => p ++ sep ++ join sep ps
    end
  end.

(* ===================================================================== *)
(** ** format_reasoning_as_quote (app.py, lines 106-112) *)
(* ===================================================================== *)

Definition quote_prefix : str := utf8 "> ".

Definition format_reasoning_as_quote (reasoning_text : str) : str :=
  if negb (truthy reasoning_text) then []
  else
    let lines := split nl reasoning_text in
    let quoted_lines := List.map (fun line => quote_prefix ++ line) lines in
    join [nl] quoted_lines.

(* ===================================================================== *)
(** ** Data model *)
(* ===================================================================== *)

(** A chat message, [{"role": ..., "content": ...}]. *)
Inductive Role := system | user | assistant.

Record Message := mkMessage { role : Role; content : str }.

(** An entry of [st.session_state.history] (lines 227-234). *)
Record HistoryRecord := mkHistoryRecord {
  timestamp : str;
  news : str;
  impact_analysis : str;
  impact_reasoning : str;
  risk_analysis : str;
  risk_reasoning : str
}.

(** [st.session_state]: the four keys initialised at lines 34-44 and the
    key of the text input widget, assigned at line 367. *)
Record SessionState := mkSessionState {
  messages : list Message;
  is_first_message : bool;
  history : list HistoryRecord;
  should_stop : bool;
  user_input_key : str
}.

Definition initial_session_state : SessionState :=
  {| messages := []; is_first_message := true; history := [];
     should_stop := false; user_input_key := [] |}.

(** The dictionary [log_data] that [log_generation] serialises (lines
    89-100).  Clock readings and durations are kept as integers (ticks of
    the clock); no property below depends on their values. *)
Module LogRecord.
Record t := mk {
  timestamp : str;
  step : str;
  input : str;
  output : str;
  reasoning : str;
  model : str;
  duration_seconds : Z;
  status : str
}.
End LogRecord.

(** A call of [client.chat.completions.create(model=, messages=, stream=True)]. *)
Record Request := mkRequest { req_model : str; req_messages : list Message }.

(** What the handlers draw on the page. *)
Inductive Slot :=
  | reasoning1_placeholder | impact_placeholder
  | reasoning2_placeholder | risk_placeholder
  | reasoning_placeholder | message_placeholder.

Inductive Exn :=
  | ApiError (msg : str)              (* raised by the completion request or its stream *)
  | UnboundLocalError (name : str).   (* a local variable read before assignment *)

Inductive Render :=
  | st_markdown (body : str)
  | placeholder_markdown (slot : Slot) (body : str)
  | st_error (prefix : str) (e : Exn).   (* st.error(prefix + str(e)) *)

Record World := mkWorld {
  session_state : SessionState;
  logger : list LogRecord.t;
  requests : list Request;
  page : list Render
}.

Definition initial_world : World :=
  {| session_state := initial_session_state; logger := []; requests := []; page := [] |}.

(* ===================================================================== *)
(** ** The environment of one script run *)
(* ===================================================================== *)

(** What happens while a streamed response is being read: the next chunk
    arrives, carrying [delta.reasoning_content] and [delta.content] (each
    possibly [None]); a cancel action sets [st.session_state.should_stop];
    or the request (or its stream) raises.  The loops only read
    [should_stop], on every chunk, from the session state they share with
    the page, so raising the flag is left to the environment. *)
Inductive Event :=
  | chunk (reasoning_content : option str) (delta_content : option str)
  | stop_requested
  | stream_error (msg : str).

Record Env := mkEnv {
  stop_button : bool;                (* value of st.button("停止生成") *)
  completions : nat -> list Event;   (* events of the k-th streaming request *)
  time_time : nat -> Z;              (* k-th reading of time.time() *)
  now_isoformat : nat -> str;        (* datetime.now().isoformat() of the k-th log record *)
  now_strftime : str                 (* datetime.now().strftime("%Y-%m-%d %H:%M:%S") *)
}.

(* ===================================================================== *)
(** ** State and exceptions *)
(* ===================================================================== *)

Inductive Result (A : Type) :=
  | Ok (a : A)
  | Raise (e : Exn).
Arguments Ok {A} a.
Arguments Raise {A} e.

Definition M (A : Type) : Type := World -> World * Result A.

Definition ret {A} (a : A) : M A := fun w => (w, Ok a).

Definition bind {A B} (m : M A) (k : A -> M B) : M B :=
  fun w =>
    match m w with
    | (w', Ok a) => k a w'
    | (w', Raise e) => (w', Raise e)
    end.

Definition raise {A} (e : Exn) : M A := fun w => (w, Raise e).

Declare Scope m_scope.
Delimit Scope m_scope with m.
Notation "x <- m ;; k" := (bind m (fun x => k))
  (at level 61, m at next level, right associativity) : m_scope.
Notation "' p <- m ;; k" := (bind m (fun x => match x with p => k end))
  (at level 61, p pattern, m at next level, right associativity) : m_scope.
Notation "m ;; k" := (bind m (fun _ => k))
  (at level 61, right associativity) : m_scope.
Open Scope m_scope.

Definition with_session (f : SessionState -> SessionState) : M unit :=
  fun w => ({| session_state := f (session_state w); logger := logger w;
               requests := requests w; page := page w |}, Ok tt).

Definition get_should_stop : M bool :=
  fun w => (w, Ok (should_stop (session_state w))).

Definition get_messages : M (list Message) :=
  fun w => (w, Ok (messages (session_state w))).

Definition set_should_stop (b : bool) : M unit :=
  with_session (fun s =>
    {| messages := messages s; is_first_message := is_first_message s;
       history := history s; should_stop := b; user_input_key := user_input_key s |}).

Definition set_is_first_message (b : bool) : M unit :=
  with_session (fun s =>
    {| messages := messages s; is_first_message := b;
       history := history s; should_stop := should_stop s;
       user_input_key := user_input_key s |}).

Definition set_messages (ms : list Message) : M unit :=
  with_session (fun s =>
    {| messages := ms; is_first_message := is_first_message s;
       history := history s; should_stop := should_stop s;
       user_input_key := user_input_key s |}).

Definition messages_append (m : Message) : M unit :=
  with_session (fun s =>
    {| messages := messages s ++ [m]; is_first_message := is_first_message s;
       history := history s; should_stop := should_stop s;
       user_input_key := user_input_key s |}).

Definition history_append (h : HistoryRecord) : M unit :=
  with_session (fun s =>
    {| messages := messages s; is_first_message := is_first_message s;
       history := history s ++ [h]; should_stop := should_stop s;
       user_input_key := user_input_key s |}).

Definition set_user_input_key (v : str) : M unit :=
  with_session (fun s =>
    {| messages := messages s; is_first_message := is_first_message s;
       history := history s; should_stop := should_stop s;
       user_input_key := v |}).

Definition logger_info (r : LogRecord.t) : M unit :=
  fun w => ({| session_state := session_state w; logger := logger w ++ [r];
               requests := requests w; page := page w |}, Ok tt).

Definition create (model : str) (msgs : list Message) : M unit :=
  fun w => ({| session_state := session_state w; logger := logger w;
               requests := requests w ++ [mkRequest model msgs]; page := page w |}, Ok tt).

Definition render (r : Render) : M unit :=
  fun w => ({| session_state := session_state w; logger := logger w;
               requests := requests w; page := page w ++ [r] |}, Ok tt).

Definition try_except {A} (body : M A) (handler : Exn -> M A) : M A :=
  fun w =>
    match body w with
    | (w', Ok a) => (w', Ok a)
    | (w', Raise e) => handler e w'
    end.

(* ===================================================================== *)
(** ** Prompts and fixed texts (lines 54-83) *)
(* ===================================================================== *)

(** [prompt_a] up to its only replacement field, [{input}]. *)
Definition prompt_a_before : str :=
  join [nl]
    [ utf8 "";
      utf8 "你是一位专业的金融分析师和A股市场专家。你的任务是分析新闻对A股市场的影响。";
      utf8 "";
      utf8 "当用户提供新闻内容时，请给出以下分析结论：";
      utf8 "";
      utf8 "1. 利好：";
      utf8 "- 利好原因";
      utf8 "- 受益行业";
      utf8 "- 相关A股上市公司";
      utf8 "";
      utf8 "2. 利空：";
      utf8 "- 利空原因";
      utf8 "- 受损行业";
      utf8 "";
      utf8 "注意，如果新闻对A股影响不明显，请直接说明" ++ [dquote]
        ++ utf8 "影响有限" ++ [dquote] ++ utf8 "。";
      utf8 "";
      utf8 "新闻内容：";
      utf8 "";
      utf8 "" ].

(** ... and after it. *)
Definition prompt_a_after : str := [nl].

(** [prompt_a.format(input=user_input)]. *)
Definition prompt_a_format (input : str) : str :=
  prompt_a_before ++ input ++ prompt_a_after.

Definition prompt_b : str :=
  join [nl]
    [ utf8 "";
      utf8 "你是一位资深的风险分析师。现在需要你基于刚才的新闻对前期分析的利好行业和公司进行风险提示。";
      utf8 "";
      utf8 "请从行业、公司及时间（短期和中长期）维度进行风险分析：";
      utf8 "";
      utf8 "注意，保持客观专业，避免过度悲观；风险分析要有针对性，避免泛泛而谈；如果认为某项风险特别重要，请用"
        ++ [dquote] ++ utf8 "⚠️" ++ [dquote] ++ utf8 "标注";
      utf8 "";
      utf8 "如果前期分析显示" ++ [dquote] ++ utf8 "影响有限" ++ [dquote]
        ++ utf8 "，则直接回复" ++ [dquote] ++ utf8 "无需进行风险分析" ++ [dquote] ++ utf8 "。";
      utf8 "" ].

Definition deepseek_reasoner : str := utf8 "deepseek-reasoner".


(* ===================================================================== *)
(** ** log_generation (lines 86-103) *)
(* ===================================================================== *)

(** [log_data] is the dictionary built at lines 89-100; [now] is the
    reading of [datetime.now().isoformat()].  The three conditional
    expressions of lines 92-94 are kept as they are written. *)
Definition log_data (now : str) (input_context output reasoning model : str)
    (duration : Z) (status step : str) : LogRecord.t :=
  {| LogRecord.timestamp := now;
     LogRecord.step := step;
     LogRecord.input :=
       if (500 <? len input_context)%nat
       then firstn 500 input_context ++ utf8 "..." else input_context;
     LogRecord.output :=
       if (500 <? len output)%nat
       then firstn 500 output ++ utf8 "..." else output;
     LogRecord.reasoning :=
       if truthy reasoning && (500 <? len reasoning)%nat
       then firstn 500 reasoning ++ utf8 "..." else reasoning;
     LogRecord.model := model;
     LogRecord.duration_seconds := duration;
     LogRecord.status := status |}.

(** The [except] branch is not modelled: slicing, [len] and [+] on
    strings do not raise. *)
Definition log_generation (now : str) (input_context output reasoning model : str)
    (duration : Z) (status step : str) : M unit :=
  logger_info (log_data now input_context output reasoning model duration status step).

(* ===================================================================== *)
(** ** The streaming loop (lines 158-168, 200-210 and 270-280) *)
(* ===================================================================== *)

(** Truthiness and value of an optional field of a chunk's delta. *)
Definition field_truthy (f : option str) : bool :=
  match f with Some s => truthy s | None => false end.

Definition field_value (f : option str) : str :=
  match f with Some s => s | None => [] end.

(** The three loops of the source differ only in the placeholders they
    draw into.  [reasoning] and [answer] are the two accumulators; the
    result is their value when the loop is left, by exhaustion of the
    stream or by [break]. *)
Fixpoint stream_loop (rslot aslot : Slot) (events : list Event)
    (reasoning answer : str) : M (str * str) :=
  match events with
  | [] => ret (reasoning, answer)
  | stop_requested :: rest =>
      set_should_stop true ;;
      stream_loop rslot aslot rest reasoning answer
  | stream_error msg :: _ => raise (ApiError msg)
  | chunk rc c :: rest =>
      stop <- get_should_stop ;;
      if stop then ret (reasoning, answer)
      else if field_truthy rc then
        let reasoning' := reasoning ++ field_value rc in
        render (placeholder_markdown rslot (format_reasoning_as_quote reasoning')) ;;
        stream_loop rslot aslot rest reasoning' answer
      else if field_truthy c then
        let answer' := answer ++ field_value c in
        render (placeholder_markdown aslot answer') ;;
        stream_loop rslot aslot rest reasoning answer'
      else stream_loop rslot aslot rest reasoning answer
  end.

(* ===================================================================== *)
(** ** handle_first_message (lines 128-237) *)
(* ===================================================================== *)

(** The early [return] of line 142 yields [None]; the [return] of line 237
    yields the pair of answers.  [second_result] is assigned only inside
    the block guarded by line 181, so it is carried as an optional value
    and reading it unassigned at line 237 raises.  The page layout calls
    ([st.empty], [st.columns]) leave no trace in the model. *)
Definition handle_first_message (user_input : str) (env : Env) : M (option (str * str)) :=
  set_should_stop false ;;
  messages_append (mkMessage user user_input) ;;
  render (st_markdown (utf8 "### 📊 利好分析")) ;;
  if stop_button env then
    set_should_stop true ;;
    ret None
  else
    let start_time_impact := time_time env 0 in
    let formatted_prompt := prompt_a_format user_input in
    create deepseek_reasoner
      [ mkMessage system (utf8 "你是一位专业的金融分析师和A股市场专家。");
        mkMessage user formatted_prompt ] ;;
    ' (first_reasoning, first_result) <-
      stream_loop reasoning1_placeholder impact_placeholder (completions env 0) [] [] ;;
    let impact_duration := (time_time env 1 - start_time_impact)%Z in
    log_generation (now_isoformat env 0) formatted_prompt first_result first_reasoning
      deepseek_reasoner impact_duration (utf8 "success") (utf8 "impact_analysis") ;;
    stop <- get_should_stop ;;
    second_result <-
      (if negb stop then
         render (st_markdown (utf8 "### ⚠️ 风险提示")) ;;
         let start_time_risk := time_time env 2 in
         create deepseek_reasoner
           [ mkMessage system (utf8 "你是一位资深的风险分析师。");
             mkMessage user formatted_prompt;
             mkMessage assistant first_result;
             mkMessage user prompt_b ] ;;
         ' (second_reasoning, second_result) <-
           stream_loop reasoning2_placeholder risk_placeholder (completions env 1) [] [] ;;
         let risk_duration := (time_time env 3 - start_time_risk)%Z in
         log_generation (now_isoformat env 1)
           (formatted_prompt ++ [nl; nl] ++ first_result ++ [nl; nl] ++ prompt_b)
           second_result second_reasoning
           deepseek_reasoner risk_duration (utf8 "success") (utf8 "risk_analysis") ;;
         let complete_response :=
           utf8 "### 📊 利好分析" ++ [nl; nl] ++ first_result ++ [nl; nl]
             ++ utf8 "### ⚠️ 风险提示" ++ [nl; nl] ++ second_result in
         messages_append (mkMessage assistant complete_response) ;;
         history_append
           {| timestamp := now_strftime env;
              news := user_input;
              impact_analysis := first_result;
              impact_reasoning := first_reasoning;
              risk_analysis := second_result;
              risk_reasoning := second_reasoning |} ;;
         ret (Some second_result)
       else ret None) ;;
    set_is_first_message false ;;
    match second_result with
    | Some second_result => ret (Some (first_result, second_result))
    | None => raise (UnboundLocalError (utf8 "second_result"))
    end.

(* ===================================================================== *)
(** ** handle_regular_message (lines 240-294) *)
(* ===================================================================== *)

Definition handle_regular_message (user_input : str) (env : Env) : M (option str) :=
  set_should_stop false ;;
  messages_append (mkMessage user user_input) ;;
  session_messages <- get_messages ;;
  let messages :=
    List.map (fun msg => mkMessage (role msg) (content msg)) (removelast session_messages)
      ++ [mkMessage user user_input] in
  if stop_button env then
    set_should_stop true ;;
    ret None
  else
    let start_time := time_time env 0 in
    create deepseek_reasoner messages ;;
    ' (reasoning, response) <-
      stream_loop reasoning_placeholder message_placeholder (completions env 0) [] [] ;;
    let duration := (time_time env 1 - start_time)%Z in
    log_generation (now_isoformat env 0) user_input response reasoning
      deepseek_reasoner duration (utf8 "success") (utf8 "conversation") ;;
    messages_append (mkMessage assistant response) ;;
    ret (Some response).

(* ===================================================================== *)
(** ** The two buttons of main (lines 359-375) *)
(* ===================================================================== *)

(** How a button block leaves the script: by [st.experimental_rerun()],
    which ends the run, or by falling through to the rest of the page. *)
Inductive Control := rerun | fall_through.

Definition get_is_first_message : M bool :=
  fun w => (w, Ok (is_first_message (session_state w))).

(** The block under [if st.button("发送")], lines 360-370; [dispatch] is
    the choice of handler at lines 362-365.  The rerun request is not an
    [Exception], so the handler of line 369 sees only what the message
    handlers raise. *)
Definition dispatch (user_input : str) (env : Env) : M unit :=
  first <- get_is_first_message ;;
  if first then handle_first_message user_input env ;; ret tt
  else handle_regular_message user_input env ;; ret tt.

Definition main_send (user_input : str) (env : Env) : M Control :=
  if truthy user_input then
    try_except
      (dispatch user_input env ;;
       set_user_input_key [] ;;
       ret rerun)
      (fun e => render (st_error (utf8 "处理失败: ") e) ;; ret fall_through)
  else ret fall_through.

(** The block under [if st.button("开始新对话")], lines 373-375. *)
Definition main_new_conversation : M Control :=
  set_messages [] ;;
  set_is_first_message true ;;
  ret rerun.

(* ===================================================================== *)
(** ** Observers used in the statements *)
(* ===================================================================== *)

(** The value of [should_stop] when the loop over [events] is left,
    starting from [stop]; [None] when the stream raises first. *)
Fixpoint loop_exit_flag (stop : bool) (events : list Event) : option bool :=
  match events with
  | [] => Some stop
  | stop_requested :: rest => loop_exit_flag true rest
  | stream_error _ :: _ => None
  | chunk _ _ :: rest => if stop then Some true else loop_exit_flag false rest
  end.

(** What a chunk adds to the answer, and to the reasoning, when it is
    processed. *)
Definition answer_increment (ev : Event) : str :=
  match ev with
  | chunk rc c => if field_truthy rc then [] else field_value c
  | _ => []
  end.

Definition reasoning_increment (ev : Event) : str :=
  match ev with
  | chunk rc _ => if field_truthy rc then field_value rc else []
  | _ => []
  end.

Definition answer_text (events : list Event) : str :=
  List.concat (List.map answer_increment events).

Definition reasoning_text (events : list Event) : str :=
  List.concat (List.map reasoning_increment events).

(** A string is logged as its first 500 characters followed by ["..."]
    when it is longer than 500 characters, and as it is otherwise. *)
Definition truncated_500 (s logged : str) : Prop :=
  (500 < len s -> logged = firstn 500 s ++ utf8 "...") /\
  (len s <= 500 -> logged = s).

(** The summary message of one completed analysis, in the words of the
    specification. *)
Definition summary (answer1 answer2 : str) : str :=
  (utf8 "### 📊 利好分析" ++ [nl; nl]) ++ answer1
    ++ ([nl; nl] ++ utf8 "### ⚠️ 风险提示" ++ [nl; nl]) ++ answer2.

(** The text has [split nl] lines; the formatted text has the same lines,
    each behind ["> "]. *)
Definition quotes_every_line (text : str) : Prop :=
  split nl (format_reasoning_as_quote text)
  = List.map (fun line => utf8 "> " ++ line) (split nl text).

(** The loop leaves everything but the page and [should_stop] alone, and
    never lowers [should_stop]. *)
Definition loop_frame (w w' : World) : Prop :=
  logger w' = logger w /\
  requests w' = requests w /\
  messages (session_state w') = messages (session_state w) /\
  history (session_state w') = history (session_state w) /\
  is_first_message (session_state w') = is_first_message (session_state w) /\
  user_input_key (session_state w') = user_input_key (session_state w) /\
  (should_stop (session_state w) = true -> should_stop (session_state w') = true).

(* ===================================================================== *)
(** ** The runs of handle_first_message *)
(* ===================================================================== *)

(** The session once lines 129-130 have run, with [should_stop] at [stop]. *)
Definition entered (input : str) (stop : bool) (s : SessionState) : SessionState :=
  {| messages := messages s ++ [mkMessage user input];
     is_first_message := is_first_message s;
     history := history s;
     should_stop := stop;
     user_input_key := user_input_key s |}.

(** The session once lines 224-236 have run as well. *)
Definition committed_session (input : str) (env : Env) (stop : bool)
    (r1 a1 r2 a2 : str) (s : SessionState) : SessionState :=
  {| messages :=
       messages s
         ++ [ mkMessage user input;
              mkMessage assistant
                (utf8 "### 📊 利好分析" ++ [nl; nl] ++ a1 ++ [nl; nl]
                   ++ utf8 "### ⚠️ 风险提示" ++ [nl; nl] ++ a2) ];
     is_first_message := false;
     history :=
       history s
         ++ [ {| timestamp := now_strftime env; news := input;
                 impact_analysis := a1; impact_reasoning := r1;
                 risk_analysis := a2; risk_reasoning := r2 |} ];
     should_stop := stop;
     user_input_key := user_input_key s |}.

Definition impact_log (input : str) (env : Env) (r1 a1 : str) : LogRecord.t :=
  log_data (now_isoformat env 0) (prompt_a_format input) a1 r1 deepseek_reasoner
    (time_time env 1 - time_time env 0)%Z (utf8 "success") (utf8 "impact_analysis").

Definition risk_log (input : str) (env : Env) (a1 r2 a2 : str) : LogRecord.t :=
  log_data (now_isoformat env 1)
    (prompt_a_format input ++ [nl; nl] ++ a1 ++ [nl; nl] ++ prompt_b)
    a2 r2 deepseek_reasoner
    (time_time env 3 - time_time env 2)%Z (utf8 "success") (utf8 "risk_analysis").

(** The five ways a call of [handle_first_message] ends, with what each
    leaves in the session and in the log. *)
Inductive first_run (input : str) (env : Env) (w w' : World)
  : Result (option (str * str)) -> Prop :=
  | stopped_at_button :
      stop_button env = true ->
      session_state w' = entered input true (session_state w) ->
      logger w' = logger w ->
      first_run input env w w' (Ok None)
  | first_request_raised (msg : str) (stop : bool) :
      stop_button env = false ->
      loop_exit_flag false (completions env 0) = None ->
      session_state w' = entered input stop (session_state w) ->
      logger w' = logger w ->
      first_run input env w w' (Raise (ApiError msg))
  | stopped_in_first_stream (r1 a1 : str) :
      stop_button env = false ->
      loop_exit_flag false (completions env 0) = Some true ->
      session_state w'
        = {| messages := messages (session_state w) ++ [mkMessage user input];
             is_first_message := false;
             history := history (session_state w);
             should_stop := true;
             user_input_key := user_input_key (session_state w) |} ->
      logger w' = logger w ++ [impact_log input env r1 a1] ->
      first_run input env w w' (Raise (UnboundLocalError (utf8 "second_result")))
  | second_request_raised (msg : str) (stop : bool) :
      stop_button env = false ->
      loop_exit_flag false (completions env 0) = Some false ->
      loop_exit_flag false (completions env 1) = None ->
      session_state w' = entered input stop (session_state w) ->
      logger w'
        = logger w ++ [impact_log input env (reasoning_text (completions env 0))
                         (answer_text (completions env 0))] ->
      first_run input env w w' (Raise (ApiError msg))
  | committed (stop : bool) (r2 a2 : str) :
      stop_button env = false ->
      loop_exit_flag false (completions env 0) = Some false ->
      loop_exit_flag false (completions env 1) = Some stop ->
      (stop = false ->
       r2 = reasoning_text (completions env 1) /\
       a2 = answer_text (completions env 1)) ->
      session_state w'
        = committed_session input env stop
            (reasoning_text (completions env 0)) (answer_text (completions env 0))
            r2 a2 (session_state w) ->
      logger w'
        = logger w ++ [ impact_log input env (reasoning_text (completions env 0))
                          (answer_text (completions env 0));
                        risk_log input env (answer_text (completions env 0)) r2 a2 ] ->
      first_run input env w w' (Ok (Some (answer_text (completions env 0), a2))).

(* ===================================================================== *)
(** ** Sample runs *)
(* ===================================================================== *)

Definition sample_news : str := utf8 "央行降准0.5个百分点".

(** An environment in which the stop button has value [button] and the
    two requests are answered by the streams [first] and [second]. *)
Definition sample_env (button : bool) (first second : list Event) : Env :=
  {| stop_button := button;
     completions := fun k => match k with 0 => first | _ => second end;
     time_time := fun k => Z.of_nat k;
     now_isoformat := fun _ => utf8 "2025-02-01T09:30:00.000000";
     now_strftime := utf8 "2025-02-01 09:30:00" |}.

(** Both requests are answered with an answer. *)
Definition env_answered : Env :=
  sample_env false
    [ chunk (Some (utf8 "降准释放流动性")) None; chunk None (Some (utf8 "利好：银行")) ]
    [ chunk None (Some (utf8 "风险：")) ; chunk None (Some (utf8 "利率下行")) ].

(** Both streams carry reasoning only and end without any content. *)
Definition env_reasoning_only : Env :=
  sample_env false
    [ chunk (Some (utf8 "降准释放流动性")) None ]
    [ chunk (Some (utf8 "无需进行风险分析")) None ].

(** The stop flag is raised while the second stream is being read. *)
Definition env_stop_in_second_stream : Env :=
  sample_env false
    [ chunk None (Some (utf8 "利好：银行")) ]
    [ chunk None (Some (utf8 "风险：")); stop_requested; chunk None (Some (utf8 "利率下行")) ].

(** The stop flag is raised after the first chunk of the first stream. *)
Definition env_stop_in_first_stream : Env :=
  sample_env false
    [ chunk None (Some (utf8 "利好：")); stop_requested; chunk None (Some (utf8 "银行")) ]
    [].

(** The stop flag is raised before the first stream has produced
    anything; a chunk arrives afterwards. *)
Definition env_stop_before_output : Env :=
  sample_env false [ stop_requested; chunk None (Some (utf8 "利好：银行")) ] [].

(** The stop flag is raised and the first stream ends without a chunk. *)
Definition env_stop_empty_stream : Env :=
  sample_env false [ stop_requested ] [].

(** A reasoning text of two lines. *)
Definition sample_reasoning : str :=
  utf8 "降准释放流动性" ++ [nl] ++ utf8 "银行板块受益".

(** A text of 501 characters. *)
Definition sample_long_text : str := List.repeat 97%N 501.

(** The stop button is pressed. *)
Definition env_stop_button : Env := sample_env true [] [].

(** The first stream fails after a chunk. *)
Definition env_first_stream_fails : Env :=
  sample_env false
    [ chunk (Some (utf8 "降准")) None; stream_error (utf8 "Connection error.") ]
    [].

(* ===================================================================== *)
(** ** Statements that the code does not satisfy as they are worded *)
(* ===================================================================== *)

(** An uncancelled first exchange of a fresh session logs the two steps
    and appends one history record with both analyses non-empty. *)
Definition first_exchange_analyses_non_empty (input : str) (env : Env) : Prop :=
  forall w' a1 a2,
    handle_first_message input env initial_world = (w', Ok (Some (a1, a2))) ->
    should_stop (session_state w') = false ->
    exists l1 l2 h,
      logger w' = [l1; l2] /\
      LogRecord.step l1 = utf8 "impact_analysis" /\
      LogRecord.step l2 = utf8 "risk_analysis" /\
      history (session_state w') = [h] /\
      impact_analysis h <> [] /\ risk_analysis h <> [].

(** A run that ends with the stop flag up appends no message and no
    history record. *)
Definition stop_appends_nothing (input : str) (env : Env) (w : World) : Prop :=
  forall w' res,
    handle_first_message input env w = (w', res) ->
    should_stop (session_state w') = true ->
    messages (session_state w') = messages (session_state w) /\
    history (session_state w') = history (session_state w).

(** A run in which a request raises leaves the message list and the
    history list as they were. *)
Definition error_leaves_lists_unchanged (input : str) (env : Env) (w : World) : Prop :=
  forall w' msg,
    handle_first_message input env w = (w', Raise (ApiError msg)) ->
    messages (session_state w') = messages (session_state w) /\
    history (session_state w') = history (session_state w).

(** The first stream had produced a chunk before any cancel action. *)
Definition output_started (events : list Event) : bool :=
  match events with
  | chunk _ _ :: _ => true
  | _ => false
  end.

(** A run cancelled before the first stream completes emits one log
    record when the stream had started producing output, none otherwise. *)
Definition one_log_iff_output_started (input : str) (env : Env) (w : World) : Prop :=
  forall w' res,
    handle_first_message input env w = (w', res) ->
    stop_button env = true \/ loop_exit_flag false (completions env 0) = Some true ->
    exists logged,
      logger w' = logger w ++ logged /\
      List.length logged
      = if negb (stop_button env) && output_started (completions env 0) then 1 else 0.

(** Every invocation ends with [is_first_message] false. *)
Definition always_clears_first_flag (input : str) (env : Env) (w : World) : Prop :=
  forall w' res,
    handle_first_message input env w = (w', res) ->
    is_first_message (session_state w') = false.

(* ===================================================================== *)
(** ** Further observers *)
(* ===================================================================== *)

(** A text in which every newline is followed by the quote prefix. *)
Definition quote_breaks (text : str) : str :=
  List.flat_map (fun c => if (c =? nl)%N then nl :: quote_prefix else [c]) text.

(** An event that is a chunk. *)
Definition is_chunk (ev : Event) : Prop :=
  match ev with chunk _ _ => True | _ => False end.

(** The number of chunks of a stream that carry an increment the loop
    renders. *)
Definition updates (events : list Event) : nat :=
  List.length
    (List.filter
       (fun ev => match ev with
                  | chunk rc c => field_truthy rc || field_truthy c
                  | _ => false
                  end)
       events).

(** The requests built at lines 149-156, 189-198 and 264-268. *)
Definition first_request (input : str) : Request :=
  mkRequest deepseek_reasoner
    [ mkMessage system (utf8 "你是一位专业的金融分析师和A股市场专家。");
      mkMessage user (prompt_a_format input) ].

Definition second_request (input first_result : str) : Request :=
  mkRequest deepseek_reasoner
    [ mkMessage system (utf8 "你是一位资深的风险分析师。");
      mkMessage user (prompt_a_format input);
      mkMessage assistant first_result;
      mkMessage user prompt_b ].

Definition regular_request (input : str) (s : SessionState) : Request :=
  mkRequest deepseek_reasoner (messages s ++ [mkMessage user input]).

Definition conversation_log (input : str) (env : Env) (reasoning response : str)
  : LogRecord.t :=
  log_data (now_isoformat env 0) input response reasoning deepseek_reasoner
    (time_time env 1 - time_time env 0)%Z (utf8 "success") (utf8 "conversation").

(** The three ways a call of [handle_regular_message] ends. *)
Inductive regular_run (input : str) (env : Env) (w w' : World)
  : Result (option str) -> Prop :=
| regular_stopped_at_button :
    stop_button env = true ->
    session_state w' = entered input true (session_state w) ->
    logger w' = logger w ->
    requests w' = requests w ->
    regular_run input env w w' (Ok None)
| regular_request_raised (msg : str) (stop : bool) :
    stop_button env = false ->
    loop_exit_flag false (completions env 0) = None ->
    session_state w' = entered input stop (session_state w) ->
    logger w' = logger w ->
    requests w' = requests w ++ [regular_request input (session_state w)] ->
    regular_run input env w w' (Raise (ApiError msg))
| regular_answered (stop : bool) (reasoning response : str) :
    stop_button env = false ->
    loop_exit_flag false (completions env 0) = Some stop ->
    (stop = false ->
     reasoning = reasoning_text (completions env 0) /\
     response = answer_text (completions env 0)) ->
    session_state w'
      = {| messages :=
             messages (session_state w)
               ++ [mkMessage user input; mkMessage assistant response];
           is_first_message := is_first_message (session_state w);
           history := history (session_state w);
           should_stop := stop;
           user_input_key := user_input_key (session_state w) |} ->
    logger w' = logger w ++ [conversation_log input env reasoning response] ->
    requests w' = requests w ++ [regular_request input (session_state w)] ->
    regular_run input env w w' (Ok (Some response)).

(** The world with the stop flag at [b], everything else as it is. *)
Definition with_should_stop (b : bool) (w : World) : World :=
  fst (set_should_stop b w).

(* ===================================================================== *)
(** ** show_history (lines 297-318) *)
(* ===================================================================== *)

From Stdlib Require DecimalNat.

(** [str(n)] for a natural number: its decimal digits. *)
Fixpoint digits (d : Decimal.uint) : str :=
  match d with
  | Decimal.Nil => []
  | Decimal.D0 d' => 48%N :: digits d'
  | Decimal.D1 d' => 49%N :: digits d'
  | Decimal.D2 d' => 50%N :: digits d'
  | Decimal.D3 d' => 51%N :: digits d'
  | Decimal.D4 d' => 52%N :: digits d'
  | Decimal.D5 d' => 53%N :: digits d'
  | Decimal.D6 d' => 54%N :: digits d'
  | Decimal.D7 d' => 55%N :: digits d'
  | Decimal.D8 d' => 56%N :: digits d'
  | Decimal.D9 d' => 57%N :: digits d'
  end.

Definition str_of_nat (n : nat) : str := digits (Nat.to_uint n).

(** [enumerate(l)], counting from [start]. *)
Fixpoint enumerate_from {A : Type} (start : nat) (l : list A) : list (nat * A) :=
  match l with
  | [] => []
  | x :: l' => (start, x) :: enumerate_from (S start) l'
  end.

(** What the history tab draws: the widgets inside an expander, and the
    items of the tab. *)
Inductive Widget :=
  | inner_markdown (body : str)
  | st_text (body : str)
  | st_button (label key : str).

Inductive HistoryItem :=
  | st_subheader (body : str)
  | st_info (body : str)
  | st_expander (label : str) (inner : list Widget).

(** The key of the button of the [i]-th expander, [f"view_history_{i}"]. *)
Definition view_history_key (i : nat) : str :=
  utf8 "view_history_" ++ str_of_nat i.

(** The body of the loop of lines 303-318 for index [i] and [record];
    [button i] is the value of the button of that expander.  The [except]
    branch of lines 309-310 is not modelled: the news of a record is a
    string, on which slicing and [len] do not raise. *)
Definition history_entry (button : nat -> bool) (i : nat) (record : HistoryRecord)
  : HistoryItem :=
  let news_text :=
    if (200 <? len (news record))%nat
    then firstn 200 (news record) ++ utf8 "..." else news record in
  st_expander (utf8 "#" ++ str_of_nat (i + 1) ++ utf8 " - " ++ timestamp record)
    ([ inner_markdown (utf8 "#### 新闻内容");
       st_text news_text;
       st_button (utf8 "查看完整分析") (view_history_key i) ]
       ++ (if button i then
             [ inner_markdown (utf8 "#### 📊 股市分析");
               inner_markdown (format_reasoning_as_quote (impact_reasoning record));
               inner_markdown (impact_analysis record);
               inner_markdown (utf8 "#### ⚠️ 风险提示");
               inner_markdown (format_reasoning_as_quote (risk_reasoning record));
               inner_markdown (risk_analysis record) ]
           else [])).

Definition show_history (s : SessionState) (button : nat -> bool) : list HistoryItem :=
  st_subheader (utf8 "历史分析记录")
    :: match history s with
       | [] => [st_info (utf8 "暂无历史记录")]
       | _ :: _ =>
           List.map (fun p => history_entry button (fst p) (snd p))
             (enumerate_from 0 (List.rev (history s)))
       end.

(** A string is shown as its first [n] characters followed by ["..."]
    when it is longer than [n] characters, and as it is otherwise. *)
Definition truncated_at (n : nat) (s shown : str) : Prop :=
  (n < len s -> shown = firstn n s ++ utf8 "...") /\
  (len s <= n -> shown = s).

(** A history of three records, the second with a long news text. *)
Definition sample_record (stamp text : str) : HistoryRecord :=
  {| timestamp := stamp; news := text;
     impact_analysis := utf8 "利好：银行"; impact_reasoning := utf8 "降准释放流动性";
     risk_analysis := utf8 "风险：利率下行"; risk_reasoning := [] |}.

Definition sample_session : SessionState :=
  {| messages := []; is_first_message := true;
     history :=
       [ sample_record (utf8 "2025-02-01 09:30:00") sample_news;
         sample_record (utf8 "2025-02-01 10:00:00") (List.repeat 97%N 201);
         sample_record (utf8 "2025-02-01 10:30:00") (utf8 "社融数据超预期") ];
     should_stop := false; user_input_key := [] |}.

(* ===================================================================== *)
(** ** Strings: splitting and joining *)
(* ===================================================================== *)

Section SplitJoin.
Variable sep : char.

Lemma split_not_nil (s : str) : split sep s <> [].
Proof.
  destruct s as [|c s]; simpl; [discriminate|].
  destruct (c =? sep)%N; [discriminate|].
  destruct (split sep s); discriminate.
Qed.

Lemma split_without_sep (s : str) : ~ In sep s -> split sep s = [s].
Proof.
  induction s as [|c s IH]; simpl; intros Hn; [reflexivity|].
  destruct (N.eqb_spec c sep) as [->|Hc].
  - exfalso. apply Hn. now left.
  - rewrite IH; [reflexivity|]. intros Hin. apply Hn. now right.
Qed.

Lemma split_app_sep (p rest : str) :
  ~ In sep p -> split sep (p ++ sep :: rest) = p :: split sep rest.
Proof.
  induction p as [|c p IH]; simpl; intros Hn.
  - now rewrite N.eqb_refl.
  - destruct (N.eqb_spec c sep) as [->|Hc].
    + exfalso. apply Hn. now left.
    + rewrite IH; [reflexivity|]. intros Hin. apply Hn. now right.
Qed.

Lemma split_pieces_without_sep (s : str) :
  Forall (fun p => ~ In sep p) (split sep s).
Proof.
  induction s as [|c s IH]; simpl.
  - constructor; [intros []|constructor].
  - destruct (N.eqb_spec c sep) as [->|Hc].
    + constructor; [intros []|exact IH].
    + destruct (split sep s) as [|l ls].
      * constructor; [|constructor].
        intros [Heq|[]]. congruence.
      * inversion IH; subst.
        constructor; [|assumption].
        intros [Heq|Hin]; [congruence|contradiction].
Qed.

Lemma split_join (pieces : list str) :
  pieces <> [] ->
  Forall (fun p => ~ In sep p) pieces ->
  split sep (join [sep] pieces) = pieces.
Proof.
  induction pieces as [|p ps IH]; intros Hne Hall; [congruence|].
  inversion Hall as [|? ? Hp Hps]; subst.
  destruct ps as [|q ps].
  - simpl. now apply split_without_sep.
  - change (join [sep] (p :: q :: ps)) with (p ++ sep :: join [sep] (q :: ps)).
    rewrite split_app_sep by assumption.
    rewrite IH; [reflexivity|discriminate|assumption].
Qed.

Lemma join_split (s : str) : join [sep] (split sep s) = s.
Proof.
  induction s as [|c s IH]; simpl; [reflexivity|].
  destruct (N.eqb_spec c sep) as [->|Hc].
  - pose proof (split_not_nil s) as Hne.
    destruct (split sep s) as [|l ls]; [congruence|].
    simpl in *. now rewrite IH.
  - destruct (split sep s) as [|l ls] eqn:E.
    + now destruct (split_not_nil s).
    + simpl in *. destruct ls; simpl in *; now rewrite <- IH.
Qed.
End SplitJoin.

Lemma quote_prefix_chars : quote_prefix = [62; 32]%N.
Proof. reflexivity. Qed.

Lemma quoted_lines_without_nl (lines : list str) :
  Forall (fun p => ~ In nl p) lines ->
  Forall (fun p => ~ In nl p) (List.map (fun line => quote_prefix ++ line) lines).
Proof.
  induction 1 as [|l ls Hl _ IH]; cbn [List.map]; constructor; [|exact IH].
  rewrite quote_prefix_chars. cbn [app].
  intros [H|[H|H]]; [discriminate H|discriminate H|contradiction].
Qed.

(** The formatter on a non-empty text, as a statement about lines. *)
Lemma format_lines (t : str) :
  t <> [] ->
  split nl (format_reasoning_as_quote t)
  = List.map (fun line => quote_prefix ++ line) (split nl t).
Proof.
  intros Hne. unfold format_reasoning_as_quote.
  destruct t as [|c t]; [congruence|]. cbn [truthy negb].
  apply split_join.
  - intros Hmap. apply map_eq_nil in Hmap. now apply split_not_nil in Hmap.
  - apply quoted_lines_without_nl, split_pieces_without_sep.
Qed.

(* ===================================================================== *)
(** ** The streaming loop: what it touches and what it returns *)
(* ===================================================================== *)

Arguments utf8 : simpl never.
Arguments format_reasoning_as_quote : simpl never.
Arguments prompt_a_format : simpl never.
Arguments log_data : simpl never.
Opaque prompt_b deepseek_reasoner.

(** Unfolds the primitives of the monad. *)
Ltac unfold_m :=
  unfold bind, ret, raise, try_except, get_should_stop, get_messages,
    get_is_first_message, set_should_stop, set_is_first_message, set_messages,
    messages_append, history_append, set_user_input_key, with_session,
    log_generation, logger_info, create, render in *.

Lemma loop_frame_refl (w : World) : loop_frame w w.
Proof. unfold loop_frame. tauto. Qed.

Lemma loop_frame_trans (w1 w2 w3 : World) :
  loop_frame w1 w2 -> loop_frame w2 w3 -> loop_frame w1 w3.
Proof. unfold loop_frame. intuition congruence. Qed.

Section StreamLoop.
Variables rslot aslot : Slot.

Lemma stream_loop_frame (events : list Event) :
  forall reasoning answer w w' res,
    stream_loop rslot aslot events reasoning answer w = (w', res) ->
    loop_frame w w'.
Proof.
  induction events as [|ev rest IH]; intros r a w w' res H.
  - simpl in H. unfold_m. inversion H; subst. apply loop_frame_refl.
  - destruct ev as [rc c| |msg]; simpl in H; unfold_m.
    + destruct (should_stop (session_state w)) eqn:Hs.
      * inversion H; subst. apply loop_frame_refl.
      * destruct (field_truthy rc); [|destruct (field_truthy c)];
          apply IH in H; unfold loop_frame in *; simpl in *;
          intuition congruence.
    + apply IH in H. unfold loop_frame in *; simpl in *. intuition congruence.
    + inversion H; subst. apply loop_frame_refl.
Qed.

(** [loop_exit_flag] is the flag the loop is left with. *)
Lemma stream_loop_exit_flag (events : list Event) :
  forall reasoning answer w w' res,
    stream_loop rslot aslot events reasoning answer w = (w', res) ->
    loop_exit_flag (should_stop (session_state w)) events
    = match res with
      | Ok _ => Some (should_stop (session_state w'))
      | Raise _ => None
      end.
Proof.
  induction events as [|ev rest IH]; intros r a w w' res H.
  - simpl in H. unfold_m. inversion H; subst. reflexivity.
  - destruct ev as [rc c| |msg]; simpl in H; unfold_m; simpl.
    + destruct (should_stop (session_state w)) eqn:Hs.
      * inversion H; subst. now rewrite Hs.
      * destruct (field_truthy rc); [|destruct (field_truthy c)];
          apply IH in H; simpl in H; now rewrite <- H, ?Hs.
    + apply IH in H. simpl in H. exact H.
    + inversion H; subst. reflexivity.
Qed.

(** The loop raises nothing but what the stream raises. *)
Lemma stream_loop_raises (events : list Event) :
  forall reasoning answer w w' e,
    stream_loop rslot aslot events reasoning answer w = (w', Raise e) ->
    exists msg, e = ApiError msg.
Proof.
  induction events as [|ev rest IH]; intros r a w w' e H.
  - simpl in H. unfold_m. discriminate H.
  - destruct ev as [rc c| |msg]; simpl in H; unfold_m.
    + destruct (should_stop (session_state w)); [discriminate H|].
      destruct (field_truthy rc); [|destruct (field_truthy c)];
        now apply IH in H.
    + now apply IH in H.
    + inversion H; subst. now exists msg.
Qed.

(** A loop left with the flag down has consumed the whole stream: the
    accumulators hold every increment, in order. *)
Lemma stream_loop_unstopped (events : list Event) :
  forall reasoning answer w w' reasoning' answer',
    stream_loop rslot aslot events reasoning answer w
      = (w', Ok (reasoning', answer')) ->
    should_stop (session_state w') = false ->
    reasoning' = reasoning ++ reasoning_text events /\
    answer' = answer ++ answer_text events.
Proof.
  unfold reasoning_text, answer_text.
  induction events as [|ev rest IH]; intros r a w w' r' a' H Hdown.
  - simpl in H. unfold_m. inversion H; subst. simpl. now rewrite !app_nil_r.
  - destruct ev as [rc c| |msg]; simpl in H; unfold_m.
    + destruct (should_stop (session_state w)) eqn:Hs.
      * inversion H; subst. congruence.
      * cbn [List.map List.concat reasoning_increment answer_increment].
        destruct (field_truthy rc) eqn:Hrc; [|destruct (field_truthy c) eqn:Hc].
        -- apply IH in H; [|assumption]. destruct H as [-> ->].
           now rewrite <- app_assoc.
        -- apply IH in H; [|assumption]. destruct H as [-> ->].
           now rewrite <- app_assoc.
        -- apply IH in H; [|assumption]. destruct H as [-> ->].
           destruct c as [[|? ?]|]; simpl in Hc; try discriminate; split; reflexivity.
    + apply stream_loop_frame in H. destruct H as (_ & _ & _ & _ & _ & _ & Hup).
      simpl in Hup. rewrite Hup in Hdown by reflexivity. discriminate.
    + discriminate H.
Qed.
End StreamLoop.

Lemma session_state_ext (s s' : SessionState) :
  messages s = messages s' ->
  is_first_message s = is_first_message s' ->
  history s = history s' ->
  should_stop s = should_stop s' ->
  user_input_key s = user_input_key s' ->
  s = s'.
Proof. destruct s, s'; simpl; intros; subst; reflexivity. Qed.

(** What a loop started with the flag down leaves of the session. *)
Lemma loop_session (rslot aslot : Slot) (events : list Event)
    (reasoning answer : str) (w w' : World) (res : Result (str * str)) :
  stream_loop rslot aslot events reasoning answer w = (w', res) ->
  logger w' = logger w /\
  session_state w'
  = {| messages := messages (session_state w);
       is_first_message := is_first_message (session_state w);
       history := history (session_state w);
       should_stop := should_stop (session_state w');
       user_input_key := user_input_key (session_state w) |}.
Proof.
  intros H. apply stream_loop_frame in H.
  destruct H as (Hl & _ & Hm & Hh & Hf & Hu & _).
  split; [exact Hl|]. now apply session_state_ext.
Qed.

Theorem handle_first_message_run (input : str) (env : Env) (w w' : World)
    (res : Result (option (str * str))) :
  handle_first_message input env w = (w', res) ->
  first_run input env w w' res.
Proof.
  intros H. unfold handle_first_message in H. unfold_m. cbn in H.
  destruct (stop_button env) eqn:Hsb; cbn in H.
  - inversion H; subst. now constructor.
  - destruct (stream_loop _ _ (completions env 0) [] [] _)
      as [w1 [[r1 a1]|e1]] eqn:L1; cbn in H.
    + pose proof (stream_loop_exit_flag _ _ _ _ _ _ L1) as F1.
      pose proof (loop_session _ _ _ _ _ _ L1) as [Hl1 Hs1].
      cbn in F1, Hl1, Hs1.
      destruct (should_stop (session_state w1)) eqn:Hstop1; cbn in H.
      * inversion H; subst. eapply stopped_in_first_stream; try eassumption.
        -- cbn. now rewrite Hs1.
        -- cbn. rewrite Hl1. reflexivity.
      * destruct (stream_loop_unstopped _ _ _ _ _ _ L1 Hstop1) as [Hr1 Ha1].
        cbn in Hr1, Ha1. subst r1 a1.
        destruct (stream_loop _ _ (completions env 1) [] [] _)
          as [w2 [[r2 a2]|e2]] eqn:L2; cbn in H.
        -- pose proof (stream_loop_exit_flag _ _ _ _ _ _ L2) as F2.
           pose proof (loop_session _ _ _ _ _ _ L2) as [Hl2 Hs2].
           cbn in F2, Hl2, Hs2. rewrite Hstop1 in F2.
           inversion H; subst.
           eapply committed with (stop := should_stop (session_state w2)) (r2 := r2);
             try eassumption.
           ++ intros Hdown.
              destruct (stream_loop_unstopped _ _ _ _ _ _ L2 Hdown) as [-> ->].
              now split.
           ++ unfold committed_session. cbn [session_state].
              rewrite Hs2, Hs1. cbn. now rewrite <- app_assoc.
           ++ cbn [logger]. rewrite Hl2. cbn [logger]. rewrite Hl1.
              now rewrite <- app_assoc.
        -- pose proof (stream_loop_exit_flag _ _ _ _ _ _ L2) as F2.
           pose proof (loop_session _ _ _ _ _ _ L2) as [Hl2 Hs2].
           destruct (stream_loop_raises _ _ _ _ _ _ L2) as [msg ->].
           cbn in F2, Hl2, Hs2. rewrite Hstop1 in F2.
           inversion H; subst.
           eapply second_request_raised with (stop := should_stop (session_state w'));
             try eassumption.
           ++ rewrite Hs2, Hs1. reflexivity.
           ++ rewrite Hl2, Hl1. reflexivity.
    + pose proof (stream_loop_exit_flag _ _ _ _ _ _ L1) as F1.
      pose proof (loop_session _ _ _ _ _ _ L1) as [Hl1 Hs1].
      destruct (stream_loop_raises _ _ _ _ _ _ L1) as [msg ->].
      cbn in F1, Hl1, Hs1. inversion H; subst.
      eapply first_request_raised with (stop := should_stop (session_state w'));
        try eassumption.
Qed.

(* ===================================================================== *)
(** ** format_reasoning_as_quote *)
(* ===================================================================== *)

(** C6, as worded, fails on the empty text: it has one line (the empty
    one), and the formatter returns the empty text, whose only line does
    not begin with ["> "]. *)
Lemma format_empty_text_not_quoted : ~ quotes_every_line [].
Proof. unfold quotes_every_line. vm_compute. discriminate. Qed.

(** C6 (amended): for every non-empty reasoning text of N lines,
    [format_reasoning_as_quote] returns a text of exactly N lines, the
    k-th being ["> "] followed by the k-th line of the input; joining the
    input lines with newlines gives the input back, so nothing of it is
    lost.  The empty text is returned as the empty text. *)
Theorem format_reasoning_as_quote_lines (text : str) :
  (text = [] -> format_reasoning_as_quote text = []) /\
  (text <> [] ->
   split nl (format_reasoning_as_quote text)
     = List.map (fun line => utf8 "> " ++ line) (split nl text) /\
   List.length (split nl (format_reasoning_as_quote text))
     = List.length (split nl text) /\
   join [nl] (split nl text) = text).
Proof.
  split.
  - intros ->. reflexivity.
  - intros Hne. pose proof (format_lines Hne) as Hlines.
    change (utf8 "> ") with quote_prefix.
    split; [exact Hlines|]. split.
    + rewrite Hlines. apply length_map.
    + apply join_split.
Qed.

Lemma format_reasoning_as_quote_lines_witness :
  split nl (format_reasoning_as_quote sample_reasoning)
    = [ utf8 "> 降准释放流动性"; utf8 "> 银行板块受益" ] /\
  List.length (split nl (format_reasoning_as_quote sample_reasoning)) = 2.
Proof.
  destruct (format_reasoning_as_quote_lines sample_reasoning) as [_ H].
  destruct H as (Hlines & Hcount & _).
  - vm_compute. discriminate.
  - split.
    + rewrite Hlines. vm_compute. reflexivity.
    + rewrite Hcount. vm_compute. reflexivity.
Defined.

(* ===================================================================== *)
(** ** log_generation *)
(* ===================================================================== *)

Lemma truncated_500_plain (s : str) :
  truncated_500 s (if (500 <? len s)%nat then firstn 500 s ++ utf8 "..." else s).
Proof.
  unfold truncated_500.
  destruct (Nat.ltb_spec 500 (len s)); split; intros; (reflexivity || lia).
Qed.

Lemma truncated_500_guarded (s : str) :
  truncated_500 s
    (if truthy s && (500 <? len s)%nat then firstn 500 s ++ utf8 "..." else s).
Proof.
  destruct s as [|c s].
  - unfold truncated_500. cbn [truthy andb len List.length]. split; intros; [lia|reflexivity].
  - cbn [truthy andb]. apply truncated_500_plain.
Qed.

(** C7: [log_generation] emits one record; each of the input, the output
    and the reasoning is recorded as its first 500 characters followed by
    ["..."] when it is longer than 500 characters, and unmodified when it
    has at most 500 characters. *)
Theorem log_generation_truncates (now input_context output reasoning model : str)
    (duration : Z) (status step : str) (w : World) :
  exists w' r,
    log_generation now input_context output reasoning model duration status step w
      = (w', Ok tt) /\
    logger w' = logger w ++ [r] /\
    session_state w' = session_state w /\
    truncated_500 input_context (LogRecord.input r) /\
    truncated_500 output (LogRecord.output r) /\
    truncated_500 reasoning (LogRecord.reasoning r) /\
    LogRecord.step r = step /\ LogRecord.status r = status.
Proof.
  unfold log_generation, logger_info. eexists. eexists.
  split; [reflexivity|]. cbn [logger session_state].
  split; [reflexivity|]. split; [reflexivity|].
  unfold log_data.
  cbn [LogRecord.input LogRecord.output LogRecord.reasoning LogRecord.step LogRecord.status].
  repeat split; try apply truncated_500_plain; try apply truncated_500_guarded.
Qed.

(* ===================================================================== *)
(** ** New conversation *)
(* ===================================================================== *)

(** C8: for every session state, the new-conversation action sets
    [is_first_message] to true and the message list to empty, and leaves
    the history list exactly as it was. *)
Theorem new_conversation_resets (w : World) :
  exists w',
    main_new_conversation w = (w', Ok rerun) /\
    is_first_message (session_state w') = true /\
    messages (session_state w') = [] /\
    history (session_state w') = history (session_state w).
Proof.
  unfold main_new_conversation. unfold_m. cbn.
  eexists. split; [reflexivity|]. cbn. repeat split.
Qed.

(* ===================================================================== *)
(** ** Chunks that carry both increments *)
(* ===================================================================== *)

Lemma stream_loop_content_ignored (rslot aslot : Slot) (r : str) (c : option str)
    (pre post : list Event) :
  r <> [] ->
  forall reasoning answer w,
    stream_loop rslot aslot (pre ++ chunk (Some r) c :: post) reasoning answer w
    = stream_loop rslot aslot (pre ++ chunk (Some r) None :: post) reasoning answer w.
Proof.
  intros Hr. destruct r as [|r0 r]; [congruence|].
  induction pre as [|ev pre IH]; intros reasoning answer w.
  - cbn [app stream_loop]. unfold_m.
    destruct (should_stop (session_state w)); reflexivity.
  - cbn [app]. destruct ev as [rc' c'| |msg]; cbn [stream_loop]; unfold_m.
    + destruct (should_stop (session_state w)); [reflexivity|].
      destruct (field_truthy rc'); [|destruct (field_truthy c')]; apply IH.
    + apply IH.
    + reflexivity.
Qed.

(** C10: in every streaming loop (the three loops are [stream_loop]), a
    chunk that carries a non-empty reasoning increment and a non-empty
    content increment has only its reasoning increment accumulated: when
    it is processed, the loop goes on with the reasoning accumulator
    extended and the answer accumulator untouched; and wherever the chunk
    stands in the stream, the run is the one of the same stream with the
    content increment of that chunk removed, so that increment reaches
    neither the answer accumulator nor anything else. *)
Theorem chunk_with_both_increments (rslot aslot : Slot) (r c : str)
    (pre post : list Event) (reasoning answer : str) (w : World) :
  r <> [] -> c <> [] ->
  (should_stop (session_state w) = false ->
   stream_loop rslot aslot (chunk (Some r) (Some c) :: post) reasoning answer w
   = (render (placeholder_markdown rslot (format_reasoning_as_quote (reasoning ++ r))) ;;
      stream_loop rslot aslot post (reasoning ++ r) answer) w) /\
  stream_loop rslot aslot (pre ++ chunk (Some r) (Some c) :: post) reasoning answer w
  = stream_loop rslot aslot (pre ++ chunk (Some r) None :: post) reasoning answer w.
Proof.
  intros Hr Hc. split.
  - intros Hdown. destruct r as [|r0 r]; [congruence|].
    cbn [stream_loop]. unfold_m. rewrite Hdown. reflexivity.
  - now apply stream_loop_content_ignored.
Qed.

Lemma chunk_with_both_increments_witness :
  stream_loop reasoning1_placeholder impact_placeholder
    ([chunk None (Some (utf8 "利好："))]
       ++ chunk (Some (utf8 "再想想")) (Some (utf8 "丢弃")) :: [chunk None (Some (utf8 "银行"))])
    [] [] initial_world
  = stream_loop reasoning1_placeholder impact_placeholder
      ([chunk None (Some (utf8 "利好："))]
         ++ chunk (Some (utf8 "再想想")) None :: [chunk None (Some (utf8 "银行"))])
      [] [] initial_world.
Proof.
  apply (chunk_with_both_increments reasoning1_placeholder impact_placeholder
           (r := utf8 "再想想") (c := utf8 "丢弃")
           [chunk None (Some (utf8 "利好："))] [chunk None (Some (utf8 "银行"))]
           [] [] initial_world).
  - vm_compute. discriminate.
  - vm_compute. discriminate.
Defined.

(* ===================================================================== *)
(** ** handle_first_message: runs that complete *)
(* ===================================================================== *)

Lemma summary_eq (a1 a2 : str) :
  utf8 "### 📊 利好分析" ++ [nl; nl] ++ a1 ++ [nl; nl]
    ++ utf8 "### ⚠️ 风险提示" ++ [nl; nl] ++ a2
  = summary a1 a2.
Proof. unfold summary. now rewrite <- !app_assoc. Qed.

(** C1, as worded, fails when the streams carry no content increment:
    the run completes, the two steps are logged and one history record is
    appended, but its two analysis texts are empty. *)
Lemma reasoning_only_run_has_empty_analyses :
  ~ first_exchange_analyses_non_empty sample_news env_reasoning_only.
Proof.
  intros Hclaim.
  destruct (Hclaim (fst (handle_first_message sample_news env_reasoning_only initial_world))
              [] [])
    as (l1 & l2 & h & _ & _ & _ & Hh & Himpact & _).
  - vm_compute. reflexivity.
  - vm_compute. reflexivity.
  - vm_compute in Hh. inversion Hh; subst h. apply Himpact. reflexivity.
Qed.

(** C1 (amended): for every news text handled by [handle_first_message]
    (in a fresh session or any other) in a run that completes without the
    stop flag being set, exactly two log records are emitted, the first
    with step "impact_analysis" and the second with step "risk_analysis",
    and exactly one HistoryRecord is appended; its [impact_analysis] and
    [risk_analysis] are the accumulated answers, that is, the content
    increments of the two streams in order (texts that are empty when a
    stream carries no content increment). *)
Theorem first_exchange_logs_and_history (input : str) (env : Env) (w w' : World)
    (a1 a2 : str) :
  handle_first_message input env w = (w', Ok (Some (a1, a2))) ->
  should_stop (session_state w') = false ->
  exists l1 l2 h,
    logger w' = logger w ++ [l1; l2] /\
    LogRecord.step l1 = utf8 "impact_analysis" /\
    LogRecord.step l2 = utf8 "risk_analysis" /\
    history (session_state w') = history (session_state w) ++ [h] /\
    impact_analysis h = a1 /\ risk_analysis h = a2 /\
    a1 = answer_text (completions env 0) /\
    a2 = answer_text (completions env 1).
Proof.
  intros Hrun Hdown. apply handle_first_message_run in Hrun.
  inversion Hrun as [ | | | | stop r2 a2' _ _ _ Hacc Hs Hl]; subst.
  rewrite Hs in Hdown. cbn in Hdown. subst stop.
  destruct (Hacc eq_refl) as [_ Ha2].
  do 3 eexists. split; [exact Hl|].
  rewrite Hs. cbn. repeat split; assumption.
Qed.

Lemma first_exchange_logs_and_history_witness :
  exists l1 l2 h,
    logger (fst (handle_first_message sample_news env_answered initial_world))
      = logger initial_world ++ [l1; l2] /\
    LogRecord.step l1 = utf8 "impact_analysis" /\
    LogRecord.step l2 = utf8 "risk_analysis" /\
    history (session_state
               (fst (handle_first_message sample_news env_answered initial_world)))
      = history (session_state initial_world) ++ [h] /\
    impact_analysis h = utf8 "利好：银行" /\
    risk_analysis h = utf8 "风险：利率下行" /\
    utf8 "利好：银行" = answer_text (completions env_answered 0) /\
    utf8 "风险：利率下行" = answer_text (completions env_answered 1).
Proof.
  apply (first_exchange_logs_and_history sample_news env_answered initial_world).
  - vm_compute. reflexivity.
  - vm_compute. reflexivity.
Defined.

(** C5: for every uncancelled run of [handle_first_message] with
    accumulated answers [answer1] and [answer2], the messages appended are
    the user Message and a single assistant Message, whose content is
    exactly "### 📊 利好分析\n\n" + answer1 + "\n\n### ⚠️ 风险提示\n\n" + answer2. *)
Theorem first_exchange_summary_message (input : str) (env : Env) (w w' : World)
    (answer1 answer2 : str) :
  handle_first_message input env w = (w', Ok (Some (answer1, answer2))) ->
  should_stop (session_state w') = false ->
  messages (session_state w')
    = messages (session_state w)
        ++ [ mkMessage user input; mkMessage assistant (summary answer1 answer2) ] /\
  answer1 = answer_text (completions env 0) /\
  answer2 = answer_text (completions env 1).
Proof.
  intros Hrun Hdown. apply handle_first_message_run in Hrun.
  inversion Hrun as [ | | | | stop r2 a2' _ _ _ Hacc Hs Hl]; subst.
  rewrite Hs in Hdown. cbn in Hdown. subst stop.
  destruct (Hacc eq_refl) as [_ Ha2].
  rewrite Hs. unfold committed_session. cbn [messages].
  rewrite summary_eq. repeat split. exact Ha2.
Qed.

Lemma first_exchange_summary_message_witness :
  messages (session_state
              (fst (handle_first_message sample_news env_answered initial_world)))
    = messages (session_state initial_world)
        ++ [ mkMessage user sample_news;
             mkMessage assistant (summary (utf8 "利好：银行") (utf8 "风险：利率下行")) ] /\
  utf8 "利好：银行" = answer_text (completions env_answered 0) /\
  utf8 "风险：利率下行" = answer_text (completions env_answered 1).
Proof.
  apply (first_exchange_summary_message sample_news env_answered initial_world).
  - vm_compute. reflexivity.
  - vm_compute. reflexivity.
Defined.

(* ===================================================================== *)
(** ** handle_first_message: cancelled runs *)
(* ===================================================================== *)

(** C2, as worded, fails when the stop flag comes up while the second
    stream is read: the second loop sees the flag and breaks, and lines
    212-234 still run, so an assistant Message and a HistoryRecord are
    appended.  It also fails on the message list when the flag comes up
    during the first stream: the user Message of line 130 is appended. *)
Lemma stop_in_second_stream_still_commits :
  ~ stop_appends_nothing sample_news env_stop_in_second_stream initial_world /\
  ~ stop_appends_nothing sample_news env_stop_in_first_stream initial_world.
Proof.
  split; intros Hclaim.
  - destruct (Hclaim
                (fst (handle_first_message sample_news env_stop_in_second_stream
                        initial_world))
                (snd (handle_first_message sample_news env_stop_in_second_stream
                        initial_world)))
      as [_ Hh].
    + vm_compute. reflexivity.
    + vm_compute. reflexivity.
    + vm_compute in Hh. discriminate Hh.
  - destruct (Hclaim
                (fst (handle_first_message sample_news env_stop_in_first_stream
                        initial_world))
                (snd (handle_first_message sample_news env_stop_in_first_stream
                        initial_world)))
      as [Hm _].
    + vm_compute. reflexivity.
    + vm_compute. reflexivity.
    + vm_compute in Hm. discriminate Hm.
Qed.

(** C2 (amended): for every run of [handle_first_message] in which the
    stop button is pressed, or the stop flag is up when the loop over the
    first stream is left, the message list receives the user Message and
    nothing else (no assistant Message), and the history list receives no
    HistoryRecord. *)
Theorem stop_before_second_request_commits_nothing (input : str) (env : Env)
    (w w' : World) (res : Result (option (str * str))) :
  handle_first_message input env w = (w', res) ->
  stop_button env = true \/ loop_exit_flag false (completions env 0) = Some true ->
  messages (session_state w') = messages (session_state w) ++ [mkMessage user input] /\
  history (session_state w') = history (session_state w) /\
  should_stop (session_state w') = true.
Proof.
  intros Hrun Hstop. apply handle_first_message_run in Hrun.
  inversion Hrun as [ Hb Hs Hl | msg stop Hb H0 Hs Hl | r1 a1 Hb H0 Hs Hl
                    | msg stop Hb H0 H1 Hs Hl | stop r2 a2 Hb H0 H1 Hacc Hs Hl ];
    subst; destruct Hstop as [Hp|Hf]; try congruence;
    rewrite Hs; cbn; repeat split.
Qed.

Lemma stop_before_second_request_commits_nothing_witness :
  messages (session_state
              (fst (handle_first_message sample_news env_stop_in_first_stream initial_world)))
    = messages (session_state initial_world) ++ [mkMessage user sample_news] /\
  history (session_state
             (fst (handle_first_message sample_news env_stop_in_first_stream initial_world)))
    = history (session_state initial_world) /\
  should_stop (session_state
                 (fst (handle_first_message sample_news env_stop_in_first_stream initial_world)))
    = true.
Proof.
  apply (stop_before_second_request_commits_nothing sample_news env_stop_in_first_stream
           initial_world
           (res := snd (handle_first_message sample_news env_stop_in_first_stream
                          initial_world))).
  - vm_compute. reflexivity.
  - right. vm_compute. reflexivity.
Defined.

(** C4, as worded, fails when the stop flag comes up before the first
    stream has produced anything: whether a chunk arrives afterwards (the
    loop breaks on it) or the stream ends without one, line 171 still
    runs and one record is logged, where the claim has none. *)
Lemma stop_before_output_still_logs :
  ~ one_log_iff_output_started sample_news env_stop_before_output initial_world /\
  ~ one_log_iff_output_started sample_news env_stop_empty_stream initial_world.
Proof.
  split; intros Hclaim.
  - destruct (Hclaim
                (fst (handle_first_message sample_news env_stop_before_output initial_world))
                (snd (handle_first_message sample_news env_stop_before_output initial_world)))
      as (logged & Hl & Hn).
    + vm_compute. reflexivity.
    + right. vm_compute. reflexivity.
    + vm_compute in Hl, Hn. destruct logged; [discriminate Hl|discriminate Hn].
  - destruct (Hclaim
                (fst (handle_first_message sample_news env_stop_empty_stream initial_world))
                (snd (handle_first_message sample_news env_stop_empty_stream initial_world)))
      as (logged & Hl & Hn).
    + vm_compute. reflexivity.
    + right. vm_compute. reflexivity.
    + vm_compute in Hl, Hn. destruct logged; [discriminate Hl|discriminate Hn].
Qed.

(** C4 (amended): for every run of [handle_first_message] cancelled
    before the second request, no log record is emitted when the stop
    button was pressed (the first request is never sent), and exactly one
    log record, with step "impact_analysis" and status "success", is
    emitted otherwise, whether or not the first stream had produced any
    output before the stop flag came up. *)
Theorem cancelled_run_log_records (input : str) (env : Env)
    (w w' : World) (res : Result (option (str * str))) :
  handle_first_message input env w = (w', res) ->
  stop_button env = true \/ loop_exit_flag false (completions env 0) = Some true ->
  (stop_button env = true /\ logger w' = logger w) \/
  (stop_button env = false /\
   exists l, logger w' = logger w ++ [l] /\
             LogRecord.step l = utf8 "impact_analysis" /\
             LogRecord.status l = utf8 "success").
Proof.
  intros Hrun Hstop. apply handle_first_message_run in Hrun.
  inversion Hrun as [ Hb Hs Hl | msg stop Hb H0 Hs Hl | r1 a1 Hb H0 Hs Hl
                    | msg stop Hb H0 H1 Hs Hl | stop r2 a2 Hb H0 H1 Hacc Hs Hl ];
    subst; destruct Hstop as [Hp|Hf]; try congruence.
  - left. now split.
  - left. now split.
  - right. split; [assumption|]. eexists. split; [exact Hl|]. now split.
Qed.

Lemma cancelled_run_log_records_witness :
  (stop_button env_stop_before_output = true /\
   logger (fst (handle_first_message sample_news env_stop_before_output initial_world))
     = logger initial_world) \/
  (stop_button env_stop_before_output = false /\
   exists l,
     logger (fst (handle_first_message sample_news env_stop_before_output initial_world))
       = logger initial_world ++ [l] /\
     LogRecord.step l = utf8 "impact_analysis" /\
     LogRecord.status l = utf8 "success").
Proof.
  apply (cancelled_run_log_records sample_news env_stop_before_output initial_world
           (res := snd (handle_first_message sample_news env_stop_before_output
                          initial_world))).
  - vm_compute. reflexivity.
  - right. vm_compute. reflexivity.
Defined.

(* ===================================================================== *)
(** ** handle_first_message: requests that raise *)
(* ===================================================================== *)

(** C3, as worded, fails on the message list: the user Message is
    appended at line 130, before any request, and stays there when the
    request raises. *)
Lemma failed_request_keeps_user_message :
  ~ error_leaves_lists_unchanged sample_news env_first_stream_fails initial_world.
Proof.
  intros Hclaim.
  destruct (Hclaim
              (fst (handle_first_message sample_news env_first_stream_fails initial_world))
              (utf8 "Connection error."))
    as [Hm _].
  - vm_compute. reflexivity.
  - vm_compute in Hm. discriminate Hm.
Qed.

(** C3 (amended): for every run of [handle_first_message] in which one
    of the two completion requests raises, the history list is unchanged,
    no assistant Message is appended and [is_first_message] keeps its
    value, while the user Message appended on entry stays in the message
    list; the exception reaches the handler of [main], which reports it
    on the page and commits nothing more. *)
Theorem request_error_reaches_main (input : str) (env : Env) (w w' : World)
    (msg : str) :
  handle_first_message input env w = (w', Raise (ApiError msg)) ->
  messages (session_state w') = messages (session_state w) ++ [mkMessage user input] /\
  history (session_state w') = history (session_state w) /\
  is_first_message (session_state w') = is_first_message (session_state w) /\
  (truthy input = true ->
   is_first_message (session_state w) = true ->
   main_send input env w
   = ({| session_state := session_state w'; logger := logger w';
         requests := requests w';
         page := page w' ++ [st_error (utf8 "处理失败: ") (ApiError msg)] |},
      Ok fall_through)).
Proof.
  intros Hrun. pose proof Hrun as Hshape. apply handle_first_message_run in Hshape.
  split; [|split; [|split]].
  - inversion Hshape; subst; match goal with H : session_state w' = _ |- _ => rewrite H end;
      reflexivity.
  - inversion Hshape; subst; match goal with H : session_state w' = _ |- _ => rewrite H end;
      reflexivity.
  - inversion Hshape; subst; match goal with H : session_state w' = _ |- _ => rewrite H end;
      reflexivity.
  - intros Hin Hfirst. unfold main_send. rewrite Hin.
    unfold try_except, dispatch, bind at 1 2, get_is_first_message.
    rewrite Hfirst. unfold bind at 1. rewrite Hrun. reflexivity.
Qed.

Lemma request_error_reaches_main_witness :
  exists w',
    handle_first_message sample_news env_first_stream_fails initial_world
      = (w', Raise (ApiError (utf8 "Connection error."))) /\
    messages (session_state w') = [mkMessage user sample_news] /\
    history (session_state w') = [] /\
    is_first_message (session_state w') = true /\
    snd (main_send sample_news env_first_stream_fails initial_world) = Ok fall_through.
Proof.
  exists (fst (handle_first_message sample_news env_first_stream_fails initial_world)).
  assert (Hrun : handle_first_message sample_news env_first_stream_fails initial_world
                 = (fst (handle_first_message sample_news env_first_stream_fails initial_world),
                    Raise (ApiError (utf8 "Connection error.")))).
  { vm_compute. reflexivity. }
  destruct (request_error_reaches_main sample_news env_first_stream_fails initial_world Hrun)
    as (Hm & Hh & Hf & Hmain).
  split; [exact Hrun|]. split; [exact Hm|]. split; [exact Hh|]. split; [exact Hf|].
  rewrite Hmain; reflexivity.
Defined.

(* ===================================================================== *)
(** ** handle_first_message: the first-message flag *)
(* ===================================================================== *)

(** C9, as worded, fails when the run is cancelled at the stop button:
    line 142 returns before line 236, so [is_first_message] stays true. *)
Lemma stop_button_keeps_first_flag :
  ~ always_clears_first_flag sample_news env_stop_button initial_world.
Proof.
  intros Hclaim.
  specialize (Hclaim (fst (handle_first_message sample_news env_stop_button initial_world))
                     (snd (handle_first_message sample_news env_stop_button initial_world))).
  assert (Hrun : handle_first_message sample_news env_stop_button initial_world
                 = (fst (handle_first_message sample_news env_stop_button initial_world),
                    snd (handle_first_message sample_news env_stop_button initial_world))).
  { vm_compute. reflexivity. }
  apply Hclaim in Hrun. vm_compute in Hrun. discriminate Hrun.
Qed.

(** C9 (amended): [handle_first_message] sets [is_first_message] to false
    at the end of every invocation in which the stop button is not
    pressed and no completion request raises, including runs in which the
    stop flag comes up during the first stream, before either analysis is
    complete; the next message sent is then handled by
    [handle_regular_message], not by a second two-step analysis.  An
    invocation that returns at the stop button, or in which a request
    raises, leaves the flag as it was. *)
Theorem first_flag_cleared (input : str) (env : Env) (w w' : World)
    (res : Result (option (str * str))) :
  handle_first_message input env w = (w', res) ->
  (stop_button env = false ->
   (forall msg, res <> Raise (ApiError msg)) ->
   is_first_message (session_state w') = false /\
   forall input2 env2,
     dispatch input2 env2 w' = (handle_regular_message input2 env2 ;; ret tt) w') /\
  (stop_button env = true \/ (exists msg, res = Raise (ApiError msg)) ->
   is_first_message (session_state w') = is_first_message (session_state w)).
Proof.
  intros Hrun. apply handle_first_message_run in Hrun. split.
  - intros Hb Hres.
    assert (Hflag : is_first_message (session_state w') = false).
    { inversion Hrun as [ Hb' Hs Hl | msg stop Hb' H0 Hs Hl | r1 a1 Hb' H0 Hs Hl
                        | msg stop Hb' H0 H1 Hs Hl | stop r2 a2 Hb' H0 H1 Hacc Hs Hl ];
        subst; try congruence; try (now destruct (Hres msg)); rewrite Hs; reflexivity. }
    split; [exact Hflag|].
    intros input2 env2. unfold dispatch, bind at 1, get_is_first_message.
    rewrite Hflag. reflexivity.
  - intros Hcase.
    inversion Hrun as [ Hb' Hs Hl | msg stop Hb' H0 Hs Hl | r1 a1 Hb' H0 Hs Hl
                      | msg stop Hb' H0 H1 Hs Hl | stop r2 a2 Hb' H0 H1 Hacc Hs Hl ];
      subst; try (rewrite Hs; reflexivity);
      destruct Hcase as [Hp|[msg' Hraise]]; congruence.
Qed.

Lemma first_flag_cleared_witness :
  is_first_message
    (session_state
       (fst (handle_first_message sample_news env_stop_in_first_stream initial_world)))
    = false /\
  forall input2 env2,
    dispatch input2 env2
      (fst (handle_first_message sample_news env_stop_in_first_stream initial_world))
    = (handle_regular_message input2 env2 ;; ret tt)
        (fst (handle_first_message sample_news env_stop_in_first_stream initial_world)).
Proof.
  apply (first_flag_cleared sample_news env_stop_in_first_stream initial_world
           (res := snd (handle_first_message sample_news env_stop_in_first_stream
                          initial_world))).
  - vm_compute. reflexivity.
  - reflexivity.
  - intros msg. vm_compute. discriminate.
Defined.

(* ===================================================================== *)
(** ** format_reasoning_as_quote: shape, growth, size *)
(* ===================================================================== *)

Lemma join_push (sep a b : str) (rest : list str) :
  join sep ((a ++ b) :: rest) = a ++ join sep (b :: rest).
Proof. destruct rest; simpl; [reflexivity|]. now rewrite <- app_assoc. Qed.

Lemma join_quoted_split (text : str) :
  join [nl] (List.map (fun line => quote_prefix ++ line) (split nl text))
  = quote_prefix ++ quote_breaks text.
Proof.
  induction text as [|c text IH].
  - reflexivity.
  - unfold quote_breaks. cbn [split List.flat_map].
    fold (quote_breaks text).
    pose proof (split_not_nil nl text) as Hne.
    destruct (N.eqb_spec c nl) as [->|Hc].
    + cbn [List.map]. destruct (split nl text) as [|l ls] eqn:E; [congruence|].
      change (join [nl] ((quote_prefix ++ []) :: List.map (fun line => quote_prefix ++ line) (l :: ls)))
        with ((quote_prefix ++ []) ++ [nl]
                ++ join [nl] (List.map (fun line => quote_prefix ++ line) (l :: ls))).
      rewrite IH, app_nil_r. reflexivity.
    + destruct (split nl text) as [|l ls] eqn:E; [congruence|].
      cbn [List.map] in *.
      rewrite join_push in IH. apply app_inv_head in IH.
      change (quote_prefix ++ c :: l) with (quote_prefix ++ [c] ++ l).
      rewrite join_push, join_push, IH. reflexivity.
Qed.

Lemma format_as_breaks (text : str) :
  text <> [] ->
  format_reasoning_as_quote text = quote_prefix ++ quote_breaks text.
Proof.
  intros Hne. destruct text as [|c text]; [congruence|].
  unfold format_reasoning_as_quote. cbn [truthy negb].
  apply join_quoted_split.
Qed.

(** X1: the formatted text is the quote prefix followed by the text in
    which every newline is followed by the prefix. *)
Theorem format_reasoning_as_quote_shape (text : str) :
  text <> [] ->
  format_reasoning_as_quote text = utf8 "> " ++ quote_breaks text.
Proof.
  intros Hne. change (utf8 "> ") with quote_prefix.
  now apply format_as_breaks.
Qed.

Lemma format_reasoning_as_quote_shape_witness :
  format_reasoning_as_quote sample_reasoning
  = utf8 "> " ++ quote_breaks sample_reasoning.
Proof.
  apply format_reasoning_as_quote_shape. vm_compute. discriminate.
Defined.

(** X2: the rendering of a growing reasoning text only grows: once the
    accumulator is non-empty, the quote of the accumulator extended by an
    increment is the previous quote followed by the increment with its
    newlines quoted. *)
Theorem format_reasoning_as_quote_grows (reasoning increment : str) :
  reasoning <> [] ->
  format_reasoning_as_quote (reasoning ++ increment)
  = format_reasoning_as_quote reasoning ++ quote_breaks increment.
Proof.
  intros Hne.
  rewrite !format_as_breaks.
  - unfold quote_breaks. now rewrite flat_map_app, <- app_assoc.
  - exact Hne.
  - destruct reasoning; [congruence|discriminate].
Qed.

Lemma format_reasoning_as_quote_grows_witness :
  format_reasoning_as_quote (utf8 "降准" ++ sample_reasoning)
  = format_reasoning_as_quote (utf8 "降准") ++ quote_breaks sample_reasoning.
Proof.
  apply format_reasoning_as_quote_grows. vm_compute. discriminate.
Defined.

Lemma map_prefix_injective (p : str) (l1 l2 : list str) :
  List.map (fun line => p ++ line) l1 = List.map (fun line => p ++ line) l2 ->
  l1 = l2.
Proof.
  revert l2. induction l1 as [|a l1 IH]; intros [|b l2] H; simpl in H;
    try discriminate; [reflexivity|].
  inversion H as [[Hab Hrest]]. apply app_inv_head in Hab. subst.
  f_equal. now apply IH.
Qed.

Lemma format_nonempty (text : str) :
  text <> [] -> format_reasoning_as_quote text <> [].
Proof.
  intros Hne. rewrite format_as_breaks by exact Hne.
  rewrite quote_prefix_chars. discriminate.
Qed.

(** X3: the formatter loses nothing: two texts with the same quote are
    the same text. *)
Theorem format_reasoning_as_quote_injective (text1 text2 : str) :
  format_reasoning_as_quote text1 = format_reasoning_as_quote text2 ->
  text1 = text2.
Proof.
  intros Heq.
  destruct text1 as [|c1 t1], text2 as [|c2 t2].
  - reflexivity.
  - exfalso. symmetry in Heq. revert Heq. apply format_nonempty. discriminate.
  - exfalso. revert Heq. apply format_nonempty. discriminate.
  - assert (Hlines : split nl (c1 :: t1) = split nl (c2 :: t2)).
    { apply (map_prefix_injective quote_prefix).
      rewrite <- !format_lines by discriminate. now rewrite Heq. }
    rewrite <- (join_split nl (c1 :: t1)), <- (join_split nl (c2 :: t2)).
    now rewrite Hlines.
Qed.

Lemma format_reasoning_as_quote_injective_witness :
  sample_reasoning = utf8 "降准释放流动性" ++ [nl] ++ utf8 "银行板块受益".
Proof.
  apply format_reasoning_as_quote_injective. vm_compute. reflexivity.
Defined.

Lemma quote_breaks_length (text : str) :
  len (quote_breaks text) + 2 = len text + 2 * List.length (split nl text).
Proof.
  unfold len. induction text as [|c text IH]; [reflexivity|].
  unfold quote_breaks in *. cbn [List.flat_map split].
  pose proof (split_not_nil nl text) as Hne.
  destruct (N.eqb_spec c nl) as [->|Hc].
  - rewrite length_app. change (List.length (nl :: quote_prefix)) with 3.
    cbn [List.length]. lia.
  - destruct (split nl text) as [|l ls]; [congruence|].
    rewrite length_app. cbn [List.length] in *. lia.
Qed.

(** X4: quoting a non-empty text adds two characters per line. *)
Theorem format_reasoning_as_quote_length (text : str) :
  text <> [] ->
  len (format_reasoning_as_quote text)
  = len text + 2 * List.length (split nl text).
Proof.
  intros Hne. rewrite format_as_breaks by exact Hne.
  rewrite <- quote_breaks_length. unfold len. rewrite length_app.
  change (List.length quote_prefix) with 2. lia.
Qed.

Lemma format_reasoning_as_quote_length_witness :
  len (format_reasoning_as_quote sample_reasoning)
  = len sample_reasoning + 2 * List.length (split nl sample_reasoning).
Proof.
  apply format_reasoning_as_quote_length. vm_compute. discriminate.
Defined.

(* ===================================================================== *)
(** ** log_generation: size of what is logged *)
(* ===================================================================== *)

Lemma truncation_bound (s : str) :
  len (if (500 <? len s)%nat then firstn 500 s ++ utf8 "..." else s) <= 503 /\
  firstn 500 (if (500 <? len s)%nat then firstn 500 s ++ utf8 "..." else s)
  = firstn 500 s.
Proof.
  unfold len. destruct (Nat.ltb_spec 500 (List.length s)) as [Hlong|Hshort].
  - split.
    + rewrite length_app, length_firstn. change (List.length (utf8 "...")) with 3. lia.
    + rewrite firstn_app, length_firstn, firstn_firstn.
      replace (Nat.min 500 500) with 500 by reflexivity.
      replace (500 - Nat.min 500 (List.length s)) with 0 by lia.
      cbn [firstn]. now rewrite app_nil_r.
  - split; [lia|reflexivity].
Qed.

(** X5: whatever the lengths of the input, the output and the reasoning,
    each is logged in at most 503 characters, and the logged text agrees
    with the original on its first 500 characters. *)
Theorem log_generation_bounded (now input_context output reasoning model : str)
    (duration : Z) (status step : str) (w : World) :
  exists r,
    logger (fst (log_generation now input_context output reasoning model duration
                   status step w))
      = logger w ++ [r] /\
    len (LogRecord.input r) <= 503 /\
    len (LogRecord.output r) <= 503 /\
    len (LogRecord.reasoning r) <= 503 /\
    firstn 500 (LogRecord.input r) = firstn 500 input_context /\
    firstn 500 (LogRecord.output r) = firstn 500 output /\
    firstn 500 (LogRecord.reasoning r) = firstn 500 reasoning.
Proof.
  unfold log_generation, logger_info. eexists. cbn [fst logger].
  split; [reflexivity|]. unfold log_data.
  cbn [LogRecord.input LogRecord.output LogRecord.reasoning].
  assert (Hguard : forall s, (truthy s && (500 <? len s)%nat)%bool = (500 <? len s)%nat).
  { intros [|c s]; reflexivity. }
  rewrite Hguard.
  destruct (truncation_bound input_context), (truncation_bound output),
    (truncation_bound reasoning).
  repeat split; assumption.
Qed.

(* ===================================================================== *)
(** ** The streaming loop: whole streams and abandoned streams *)
(* ===================================================================== *)

(** X6: a stream that only delivers chunks, read with the stop flag down,
    is consumed to its end: the loop returns the two accumulators extended
    by all reasoning increments and all answer increments, in order; it
    redraws a placeholder once per chunk that carries an increment, and
    leaves the session, the log and the requests alone. *)
Theorem stream_loop_accumulates (rslot aslot : Slot) (events : list Event) :
  forall (reasoning answer : str) (w : World),
    Forall is_chunk events ->
    should_stop (session_state w) = false ->
    exists w',
      stream_loop rslot aslot events reasoning answer w
        = (w', Ok (reasoning ++ reasoning_text events, answer ++ answer_text events)) /\
      session_state w' = session_state w /\
      logger w' = logger w /\
      requests w' = requests w /\
      List.length (page w') = List.length (page w) + updates events.
Proof.
  unfold reasoning_text, answer_text, updates.
  induction events as [|ev rest IH]; intros r a w Hall Hdown.
  - exists w. cbn. rewrite !app_nil_r, Nat.add_0_r. repeat split.
  - inversion Hall as [|? ? Hev Hrest]; subst.
    destruct ev as [rc c| |msg]; try contradiction.
    cbn [stream_loop]. unfold_m. rewrite Hdown.
    cbn [List.map List.concat List.filter reasoning_increment answer_increment].
    destruct (field_truthy rc) eqn:Hrc; [|destruct (field_truthy c) eqn:Hc];
      cbn [orb List.length].
    + match goal with |- context [stream_loop _ _ rest ?r' ?a' ?w1] =>
        destruct (IH r' a' w1 Hrest Hdown) as (w' & Hrun & Hs & Hl & Hq & Hp) end.
      exists w'. rewrite Hrun, <- !app_assoc. cbn [app].
      repeat split; try assumption.
      rewrite Hp. cbn [page]. rewrite length_app. cbn [List.length]. lia.
    + match goal with |- context [stream_loop _ _ rest ?r' ?a' ?w1] =>
        destruct (IH r' a' w1 Hrest Hdown) as (w' & Hrun & Hs & Hl & Hq & Hp) end.
      exists w'. rewrite Hrun, <- !app_assoc. cbn [app].
      repeat split; try assumption.
      rewrite Hp. cbn [page]. rewrite length_app. cbn [List.length]. lia.
    + destruct (IH r a w Hrest Hdown) as (w' & Hrun & Hs & Hl & Hq & Hp).
      exists w'. rewrite Hrun.
      assert (Hnil : field_value c = []).
      { destruct c as [[|? ?]|]; simpl in Hc; try discriminate; reflexivity. }
      rewrite Hnil. cbn [app]. repeat split; assumption.
Qed.

Lemma stream_loop_accumulates_witness :
  exists w',
    stream_loop reasoning1_placeholder impact_placeholder
      (completions env_answered 0) [] [] initial_world
      = (w', Ok ([] ++ reasoning_text (completions env_answered 0),
                 [] ++ answer_text (completions env_answered 0))) /\
    session_state w' = session_state initial_world /\
    logger w' = logger initial_world /\
    requests w' = requests initial_world /\
    List.length (page w') = List.length (page initial_world)
                            + updates (completions env_answered 0).
Proof.
  apply stream_loop_accumulates.
  - repeat constructor.
  - reflexivity.
Defined.

(** X7: once the stop flag has come up, the first chunk that arrives
    ends the loop and nothing after it is read: whatever follows that
    chunk (more chunks, or a failure of the stream) changes nothing. *)
Theorem stream_loop_abandons_rest (rslot aslot : Slot) (rc c : option str)
    (pre post : list Event) :
  forall (reasoning answer : str) (w : World),
    stream_loop rslot aslot (pre ++ stop_requested :: chunk rc c :: post)
      reasoning answer w
    = stream_loop rslot aslot (pre ++ [stop_requested; chunk rc c]) reasoning answer w.
Proof.
  induction pre as [|ev pre IH]; intros reasoning answer w.
  - cbn [app stream_loop]. unfold_m. reflexivity.
  - cbn [app]. destruct ev as [rc' c'| |msg]; cbn [stream_loop]; unfold_m.
    + destruct (should_stop (session_state w)); [reflexivity|].
      destruct (field_truthy rc'); [|destruct (field_truthy c')]; apply IH.
    + apply IH.
    + reflexivity.
Qed.

(* ===================================================================== *)
(** ** The runs of handle_regular_message *)
(* ===================================================================== *)

Lemma copy_messages (ms : list Message) :
  List.map (fun msg => mkMessage (role msg) (content msg)) ms = ms.
Proof.
  induction ms as [|[r c] ms IH]; simpl; [reflexivity|]. now rewrite IH.
Qed.

Theorem handle_regular_message_run (input : str) (env : Env) (w w' : World)
    (res : Result (option str)) :
  handle_regular_message input env w = (w', res) ->
  regular_run input env w w' res.
Proof.
  intros H. unfold handle_regular_message in H. unfold_m. cbn in H.
  rewrite removelast_last, copy_messages in H.
  destruct (stop_button env) eqn:Hsb; cbn in H.
  - inversion H; subst. now constructor.
  - destruct (stream_loop _ _ (completions env 0) [] [] _)
      as [w1 [[r1 a1]|e1]] eqn:L1; cbn in H.
    + pose proof (stream_loop_exit_flag _ _ _ _ _ _ L1) as F1.
      pose proof (stream_loop_frame _ _ _ _ _ _ L1) as (_ & Hq1 & _).
      pose proof (loop_session _ _ _ _ _ _ L1) as [Hl1 Hs1].
      cbn in F1, Hl1, Hs1, Hq1.
      inversion H; subst.
      eapply regular_answered with (stop := should_stop (session_state w1))
                                   (reasoning := r1); try eassumption.
      * intros Hdown.
        destruct (stream_loop_unstopped _ _ _ _ _ _ L1 Hdown) as [-> ->].
        now split.
      * cbn [session_state]. rewrite Hs1. cbn. now rewrite <- app_assoc.
      * cbn [logger]. now rewrite Hl1.
    + pose proof (stream_loop_exit_flag _ _ _ _ _ _ L1) as F1.
      pose proof (stream_loop_frame _ _ _ _ _ _ L1) as (_ & Hq1 & _).
      pose proof (loop_session _ _ _ _ _ _ L1) as [Hl1 Hs1].
      destruct (stream_loop_raises _ _ _ _ _ _ L1) as [msg ->].
      cbn in F1, Hl1, Hs1, Hq1. inversion H; subst.
      eapply regular_request_raised with (stop := should_stop (session_state w'));
        try eassumption.
Qed.



(** X9: whenever the stop button is not pressed, [handle_regular_message]
    sends exactly one request, and its messages are the whole message
    list of the session as it was before the call, in order, followed by
    the new user message. *)
Theorem regular_message_request (input : str) (env : Env) (w w' : World)
    (res : Result (option str)) :
  handle_regular_message input env w = (w', res) ->
  stop_button env = false ->
  requests w'
  = requests w
      ++ [mkRequest deepseek_reasoner
            (messages (session_state w) ++ [mkMessage user input])].
Proof.
  intros Hrun Hb. apply handle_regular_message_run in Hrun.
  inversion Hrun; subst; try congruence; assumption.
Qed.

Lemma regular_message_request_witness :
  requests (fst (handle_regular_message sample_news env_answered initial_world))
  = requests initial_world
      ++ [mkRequest deepseek_reasoner
            (messages (session_state initial_world) ++ [mkMessage user sample_news])].
Proof.
  apply (regular_message_request sample_news env_answered initial_world
           (res := snd (handle_regular_message sample_news env_answered initial_world))).
  - vm_compute. reflexivity.
  - reflexivity.
Defined.

(** X10: when the stop button is pressed, [handle_regular_message]
    returns at once: the user Message is the only thing appended, no
    request is sent, nothing is logged, and the stop flag is left up. *)
Theorem regular_message_stop_button (input : str) (env : Env) (w : World) :
  stop_button env = true ->
  exists w',
    handle_regular_message input env w = (w', Ok None) /\
    session_state w' = entered input true (session_state w) /\
    logger w' = logger w /\
    requests w' = requests w.
Proof.
  intros Hb.
  destruct (handle_regular_message input env w) as [w' res] eqn:Hrun.
  pose proof Hrun as Hshape. apply handle_regular_message_run in Hshape.
  inversion Hshape; subst; try congruence.
  exists w'. repeat split; assumption.
Qed.

Lemma regular_message_stop_button_witness :
  exists w',
    handle_regular_message sample_news env_stop_button initial_world = (w', Ok None) /\
    session_state w' = entered sample_news true (session_state initial_world) /\
    logger w' = logger initial_world /\
    requests w' = requests initial_world.
Proof.
  apply regular_message_stop_button. reflexivity.
Defined.

(** X11: when the request of [handle_regular_message] raises, the user
    Message stays in the message list, no assistant Message is appended
    and nothing is logged; [main], called for a later message of a
    conversation, reports the exception on the page and does not rerun. *)
Theorem regular_message_error (input : str) (env : Env) (w w' : World) (e : Exn) :
  handle_regular_message input env w = (w', Raise e) ->
  (exists msg, e = ApiError msg) /\
  messages (session_state w') = messages (session_state w) ++ [mkMessage user input] /\
  history (session_state w') = history (session_state w) /\
  logger w' = logger w /\
  (truthy input = true ->
   is_first_message (session_state w) = false ->
   main_send input env w
   = ({| session_state := session_state w'; logger := logger w';
         requests := requests w';
         page := page w' ++ [st_error (utf8 "处理失败: ") e] |},
      Ok fall_through)).
Proof.
  intros Hrun. pose proof Hrun as Hshape. apply handle_regular_message_run in Hshape.
  inversion Hshape as [ | msg stop Hb' H0 Hs Hl Hq | ]; subst.
  split; [now exists msg|].
  split; [rewrite Hs; reflexivity|]. split; [rewrite Hs; reflexivity|].
  split; [exact Hl|].
  intros Hin Hfirst. unfold main_send. rewrite Hin.
  unfold try_except, dispatch, bind at 1 2, get_is_first_message.
  rewrite Hfirst. unfold bind at 1. rewrite Hrun. reflexivity.
Qed.

Lemma regular_message_error_witness :
  exists w',
    handle_regular_message sample_news env_first_stream_fails initial_world
      = (w', Raise (ApiError (utf8 "Connection error."))) /\
    messages (session_state w') = [mkMessage user sample_news] /\
    logger w' = [].
Proof.
  exists (fst (handle_regular_message sample_news env_first_stream_fails initial_world)).
  assert (Hrun : handle_regular_message sample_news env_first_stream_fails initial_world
                 = (fst (handle_regular_message sample_news env_first_stream_fails
                           initial_world),
                    Raise (ApiError (utf8 "Connection error.")))).
  { vm_compute. reflexivity. }
  destruct (regular_message_error sample_news env_first_stream_fails initial_world Hrun)
    as (_ & Hm & _ & Hl & _).
  split; [exact Hrun|]. split; [exact Hm|exact Hl].
Defined.

(* ===================================================================== *)
(** ** handle_first_message: requests and the cancelled return *)
(* ===================================================================== *)

(** X12: [handle_first_message] sends no request when the stop button is
    pressed; otherwise it sends the impact request (system preamble and
    the formatted news prompt), and, exactly when the loop over the first
    stream is left with the stop flag down, a second request whose
    messages are the second system preamble, the formatted news prompt,
    the first answer as an assistant message, and the risk prompt. *)
Theorem first_message_requests (input : str) (env : Env) (w w' : World)
    (res : Result (option (str * str))) :
  handle_first_message input env w = (w', res) ->
  requests w'
  = requests w
      ++ (if stop_button env then []
          else first_request input
                 :: match loop_exit_flag false (completions env 0) with
                    | Some false =>
                        [second_request input (answer_text (completions env 0))]
                    | _ => []
                    end).
Proof.
  intros H. unfold handle_first_message in H. unfold_m. cbn in H.
  destruct (stop_button env) eqn:Hsb; cbn in H.
  - inversion H; subst. cbn. now rewrite app_nil_r.
  - destruct (stream_loop _ _ (completions env 0) [] [] _)
      as [w1 [[r1 a1]|e1]] eqn:L1; cbn in H.
    + pose proof (stream_loop_exit_flag _ _ _ _ _ _ L1) as F1.
      pose proof (stream_loop_frame _ _ _ _ _ _ L1) as (_ & Hq1 & _).
      cbn in F1, Hq1. rewrite F1.
      destruct (should_stop (session_state w1)) eqn:Hstop1; cbn in H.
      * inversion H; subst. cbn. exact Hq1.
      * destruct (stream_loop_unstopped _ _ _ _ _ _ L1 Hstop1) as [_ Ha1].
        cbn in Ha1. subst a1.
        destruct (stream_loop _ _ (completions env 1) [] [] _)
          as [w2 [[r2 a2]|e2]] eqn:L2; cbn in H;
          pose proof (stream_loop_frame _ _ _ _ _ _ L2) as (_ & Hq2 & _);
          cbn in Hq2; inversion H; subst; cbn;
          rewrite Hq2, Hq1, <- app_assoc; reflexivity.
    + pose proof (stream_loop_exit_flag _ _ _ _ _ _ L1) as F1.
      pose proof (stream_loop_frame _ _ _ _ _ _ L1) as (_ & Hq1 & _).
      cbn in F1, Hq1. rewrite F1. inversion H; subst. exact Hq1.
Qed.

Lemma first_message_requests_witness :
  requests (fst (handle_first_message sample_news env_answered initial_world))
  = [ first_request sample_news;
      second_request sample_news (utf8 "利好：银行") ].
Proof.
  rewrite (first_message_requests sample_news env_answered initial_world
             (res := snd (handle_first_message sample_news env_answered initial_world))).
  - vm_compute. reflexivity.
  - vm_compute. reflexivity.
Defined.



(* ===================================================================== *)
(** ** Stale stop flags *)
(* ===================================================================== *)

Lemma reset_forgets_flag {A} (k : unit -> M A) (b : bool) (w : World) :
  bind (set_should_stop false) k (with_should_stop b w)
  = bind (set_should_stop false) k w.
Proof. reflexivity. Qed.

(** X14: a stop flag left up by an earlier exchange never cancels the
    next one: both handlers reset the flag on entry, so their whole run
    (result, session, log, requests, page) is the same whatever the flag
    was when they were called. *)
Theorem handlers_ignore_stale_stop_flag (input : str) (env : Env) (b : bool)
    (w : World) :
  handle_first_message input env (with_should_stop b w)
    = handle_first_message input env w /\
  handle_regular_message input env (with_should_stop b w)
    = handle_regular_message input env w.
Proof.
  split.
  - unfold handle_first_message. apply reset_forgets_flag.
  - unfold handle_regular_message. apply reset_forgets_flag.
Qed.

(* ===================================================================== *)
(** ** main: what a send can do to the session *)
(* ===================================================================== *)

Lemma dispatch_cases (input : str) (env : Env) (w w1 : World) (res : Result unit) :
  dispatch input env w = (w1, res) ->
  (is_first_message (session_state w) = true /\
   exists r, first_run input env w w1 r /\
             res = match r with Ok _ => Ok tt | Raise e => Raise e end) \/
  (is_first_message (session_state w) = false /\
   exists r, regular_run input env w w1 r /\
             res = match r with Ok _ => Ok tt | Raise e => Raise e end).
Proof.
  unfold dispatch, bind at 1, get_is_first_message.
  destruct (is_first_message (session_state w)) eqn:Hfirst; intros H; [left|right];
    (split; [reflexivity|]); unfold bind, ret in H.
  - destruct (handle_first_message input env w) as [w0 [a|e]] eqn:Hrun;
      inversion H; subst; eexists;
      (split; [apply handle_first_message_run; eassumption|]); reflexivity.
  - destruct (handle_regular_message input env w) as [w0 [a|e]] eqn:Hrun;
      inversion H; subst; eexists;
      (split; [apply handle_regular_message_run; eassumption|]); reflexivity.
Qed.

Lemma dispatch_session (input : str) (env : Env) (w w1 : World) (res : Result unit) :
  dispatch input env w = (w1, res) ->
  (exists extra, history (session_state w1) = history (session_state w) ++ extra /\
                 List.length extra <= 1) /\
  (exists rest, messages (session_state w1)
                = messages (session_state w) ++ mkMessage user input :: rest /\
                List.length rest <= 1) /\
  (is_first_message (session_state w) = false ->
   is_first_message (session_state w1) = false) /\
  user_input_key (session_state w1) = user_input_key (session_state w).
Proof.
  intros H. apply dispatch_cases in H.
  destruct H as [[Hfirst (r & Hrun & _)]|[Hfirst (r & Hrun & _)]];
    inversion Hrun; subst;
    match goal with Hs : session_state w1 = _ |- _ => rewrite Hs end; cbn;
    (split; [first [ exists []; split; [now rewrite app_nil_r|cbn; lia]
                   | eexists; split; [reflexivity|cbn; lia] ]|]);
    (split; [eexists; split; [reflexivity|cbn; lia]|]);
    (split; [congruence|reflexivity]).
Qed.


Lemma main_send_unfold (input : str) (env : Env) (w : World) :
  truthy input = true ->
  main_send input env w
  = match dispatch input env w with
    | (w1, Ok _) => (fst (set_user_input_key [] w1), Ok rerun)
    | (w1, Raise e) =>
        (fst (render (st_error (utf8 "处理失败: ") e) w1), Ok fall_through)
    end.
Proof.
  intros Hin. unfold main_send. rewrite Hin. unfold try_except, bind at 1.
  destruct (dispatch input env w) as [w1 [[]|e]]; reflexivity.
Qed.

Lemma main_send_session (input : str) (env : Env) (w : World) :
  truthy input = true ->
  exists w1 res,
    dispatch input env w = (w1, res) /\
    history (session_state (fst (main_send input env w))) = history (session_state w1) /\
    messages (session_state (fst (main_send input env w))) = messages (session_state w1) /\
    is_first_message (session_state (fst (main_send input env w)))
      = is_first_message (session_state w1).
Proof.
  intros Hin. rewrite (main_send_unfold input env w Hin).
  destruct (dispatch input env w) as [w1 [[]|e]] eqn:Hd;
    exists w1; eexists; (split; [reflexivity|]); repeat split.
Qed.

(** X16: the history list is append-only under [main]'s two buttons: a
    send keeps every record in place and appends at most one, and a new
    conversation keeps the list as it is. *)
Theorem history_append_only (input : str) (env : Env) (w : World) :
  (exists extra,
     history (session_state (fst (main_send input env w)))
       = history (session_state w) ++ extra /\
     List.length extra <= 1) /\
  history (session_state (fst (main_new_conversation w))) = history (session_state w).
Proof.
  split; [|reflexivity].
  destruct (truthy input) eqn:Hin.
  - destruct (main_send_session input env w Hin) as (w1 & res & Hd & Hh & _).
    rewrite Hh. apply dispatch_session in Hd. apply Hd.
  - unfold main_send. rewrite Hin. exists []. cbn. split; [now rewrite app_nil_r|lia].
Qed.

(** X17: a send with a non-empty input never drops or rewrites a message:
    the message list afterwards is the one before, followed by the user
    Message and at most one assistant Message; and a conversation that
    has left its first message stays there until a new conversation is
    started ([is_first_message] does not go back to true). *)
Theorem send_extends_messages (input : str) (env : Env) (w : World) :
  truthy input = true ->
  (exists rest,
     messages (session_state (fst (main_send input env w)))
       = messages (session_state w) ++ mkMessage user input :: rest /\
     List.length rest <= 1 /\
     Forall (fun m => role m = assistant) rest) /\
  (is_first_message (session_state w) = false ->
   is_first_message (session_state (fst (main_send input env w))) = false).
Proof.
  intros Hin.
  destruct (main_send_session input env w Hin) as (w1 & res & Hd & _ & Hm & Hf).
  rewrite Hm, Hf. apply dispatch_cases in Hd.
  destruct Hd as [[Hfirst (r & Hrun & _)]|[Hfirst (r & Hrun & _)]];
    inversion Hrun; subst;
    match goal with Hs : session_state w1 = _ |- _ => rewrite Hs end; cbn;
    (split; [eexists; split; [reflexivity|split; [cbn; lia|repeat constructor]]
            |congruence]).
Qed.

Lemma send_extends_messages_witness :
  (exists rest,
     messages (session_state (fst (main_send sample_news env_answered initial_world)))
       = messages (session_state initial_world) ++ mkMessage user sample_news :: rest /\
     List.length rest <= 1 /\
     Forall (fun m => role m = assistant) rest) /\
  (is_first_message (session_state initial_world) = false ->
   is_first_message (session_state (fst (main_send sample_news env_answered initial_world)))
     = false).
Proof.
  apply send_extends_messages. reflexivity.
Defined.

(** X18: the message after a first exchange carries the exchange as its
    context: when [handle_first_message] has returned its two answers,
    the next send whose stop button is not pressed issues one request,
    whose messages are the earlier messages of the session, the news as
    a user message, the summary of the two answers as an assistant
    message, and the new input as a user message. *)
Theorem follow_up_carries_first_exchange (news question : str) (env1 env2 : Env)
    (w w1 w2 : World) (answer1 answer2 : str) (res : Result unit) :
  handle_first_message news env1 w = (w1, Ok (Some (answer1, answer2))) ->
  stop_button env2 = false ->
  dispatch question env2 w1 = (w2, res) ->
  requests w2
  = requests w1
      ++ [mkRequest deepseek_reasoner
            (messages (session_state w)
               ++ [ mkMessage user news;
                    mkMessage assistant (summary answer1 answer2);
                    mkMessage user question ])].
Proof.
  intros Hfirst Hb Hd. apply handle_first_message_run in Hfirst.
  inversion Hfirst as [ | | | | stop r2 a2' _ _ _ Hacc Hs Hl]; subst.
  apply dispatch_cases in Hd.
  destruct Hd as [[Hflag _]|[_ (r & Hrun & _)]].
  - rewrite Hs in Hflag. discriminate Hflag.
  - inversion Hrun as [ Hb' | msg stop' Hb' H0 Hs' Hl' Hq
                      | stop' reasoning response Hb' H0 Hacc' Hs' Hl' Hq ];
      subst; try congruence;
      rewrite Hq; unfold regular_request; rewrite Hs;
      unfold committed_session; cbn [messages];
      rewrite summary_eq, <- app_assoc; reflexivity.
Qed.

Lemma follow_up_carries_first_exchange_witness :
  requests
    (fst (dispatch (utf8 "哪些银行受益最大") env_answered
            (fst (handle_first_message sample_news env_answered initial_world))))
  = requests (fst (handle_first_message sample_news env_answered initial_world))
      ++ [mkRequest deepseek_reasoner
            (messages (session_state initial_world)
               ++ [ mkMessage user sample_news;
                    mkMessage assistant
                      (summary (utf8 "利好：银行") (utf8 "风险：利率下行"));
                    mkMessage user (utf8 "哪些银行受益最大") ])].
Proof.
  apply (follow_up_carries_first_exchange sample_news (utf8 "哪些银行受益最大")
           env_answered env_answered initial_world
           (res := snd (dispatch (utf8 "哪些银行受益最大") env_answered
                          (fst (handle_first_message sample_news env_answered
                                  initial_world))))).
  - vm_compute. reflexivity.
  - reflexivity.
  - vm_compute. reflexivity.
Defined.

(* ===================================================================== *)
(** ** show_history *)
(* ===================================================================== *)

Lemma nth_error_enumerate_from {A : Type} (l : list A) :
  forall start j,
    nth_error (enumerate_from start l) j
    = option_map (fun x => (start + j, x)) (nth_error l j).
Proof.
  induction l as [|x l IH]; intros start [|j]; cbn; try reflexivity.
  - now rewrite Nat.add_0_r.
  - rewrite IH. now rewrite Nat.add_succ_r.
Qed.

(** X19: the history tab shows, under its heading, one expander per
    record of the history list, the most recent first: the record at
    position [i] of a history of [n] records (the oldest at 0) is the
    item number [n - i], labelled "#" + (n - i) + " - " + its timestamp;
    an empty history shows the notice "暂无历史记录" instead. *)
Theorem show_history_most_recent_first (s : SessionState) (button : nat -> bool) :
  (history s = [] ->
   show_history s button
   = [st_subheader (utf8 "历史分析记录"); st_info (utf8 "暂无历史记录")]) /\
  (history s <> [] ->
   List.length (show_history s button) = 1 + List.length (history s)) /\
  (forall i record,
     nth_error (history s) i = Some record ->
     nth_error (show_history s button) (List.length (history s) - i)
       = Some (history_entry button (List.length (history s) - 1 - i) record) /\
     exists inner,
       history_entry button (List.length (history s) - 1 - i) record
       = st_expander (utf8 "#" ++ str_of_nat (List.length (history s) - i)
                        ++ utf8 " - " ++ timestamp record) inner).
Proof.
  unfold show_history. split; [|split].
  - intros ->. reflexivity.
  - intros Hne. destruct (history s) as [|r0 rs] eqn:E; [congruence|].
    cbn [List.length]. f_equal.
    rewrite length_map.
    assert (Hlen : forall A (l : list A) k, List.length (enumerate_from k l) = List.length l).
    { intros A l. induction l; intros k; cbn; [reflexivity|]. now rewrite IHl. }
    now rewrite Hlen, length_rev.
  - intros i record Hi.
    assert (Hlt : i < List.length (history s)).
    { apply nth_error_Some. congruence. }
    destruct (history s) as [|r0 rs] eqn:E; [destruct i; discriminate|].
    rewrite <- E in *. split.
    + replace (List.length (history s) - i) with (S (List.length (history s) - 1 - i)) by lia.
      cbn [nth_error]. rewrite nth_error_map, nth_error_enumerate_from, nth_error_rev.
      replace (List.length (history s) - 1 - i <? List.length (history s)) with true
        by (symmetry; apply Nat.ltb_lt; lia).
      replace (List.length (history s) - S (List.length (history s) - 1 - i)) with i by lia.
      rewrite Hi. reflexivity.
    + unfold history_entry. eexists.
      replace (List.length (history s) - 1 - i + 1) with (List.length (history s) - i) by lia.
      reflexivity.
Qed.

Lemma show_history_most_recent_first_witness :
  nth_error (show_history sample_session (fun _ => false)) 1
  = Some (history_entry (fun _ => false) 0
            (sample_record (utf8 "2025-02-01 10:30:00") (utf8 "社融数据超预期"))).
Proof.
  destruct (show_history_most_recent_first sample_session (fun _ => false))
    as (_ & _ & H).
  destruct (H 2 (sample_record (utf8 "2025-02-01 10:30:00") (utf8 "社融数据超预期")))
    as [Hnth _].
  - reflexivity.
  - exact Hnth.
Defined.

(** X20: in every expander of the history tab the news is previewed as
    its first 200 characters followed by "..." when it is longer than 200
    characters, and in full otherwise; the preview is the second widget,
    after the heading and before the button of that entry. *)
Theorem history_preview_truncated (button : nat -> bool) (i : nat)
    (record : HistoryRecord) :
  exists label shown rest,
    history_entry button i record
    = st_expander label
        (inner_markdown (utf8 "#### 新闻内容") :: st_text shown
           :: st_button (utf8 "查看完整分析") (view_history_key i) :: rest) /\
    truncated_at 200 (news record) shown /\
    len shown <= 203.
Proof.
  unfold history_entry. do 3 eexists. split; [reflexivity|].
  unfold truncated_at, len.
  destruct (Nat.ltb_spec 200 (List.length (news record))) as [Hlong|Hshort].
  - split; [split; intros; [reflexivity|lia]|].
    rewrite length_app, length_firstn. change (List.length (utf8 "...")) with 3. lia.
  - split; [split; intros; [lia|reflexivity]|lia].
Qed.

Lemma digits_injective (d1 d2 : Decimal.uint) : digits d1 = digits d2 -> d1 = d2.
Proof.
  revert d2. induction d1; intros d2 H; destruct d2; cbn in H;
    try discriminate; try reflexivity;
    inversion H as [Hrest]; f_equal; now apply IHd1.
Qed.

Lemma str_of_nat_injective (i j : nat) : str_of_nat i = str_of_nat j -> i = j.
Proof.
  unfold str_of_nat. intros H. apply digits_injective in H.
  rewrite <- (DecimalNat.Unsigned.of_to i), <- (DecimalNat.Unsigned.of_to j).
  now rewrite H.
Qed.

(** X21: the buttons of the history tab never share a key: the keys of
    two entries are equal only for the same index, and so are the numbers
    in their labels. *)
Theorem history_keys_distinct (i j : nat) :
  (view_history_key i = view_history_key j -> i = j) /\
  (utf8 "#" ++ str_of_nat (i + 1) = utf8 "#" ++ str_of_nat (j + 1) -> i = j).
Proof.
  split; intros H.
  - unfold view_history_key in H. apply app_inv_head in H.
    now apply str_of_nat_injective.
  - apply app_inv_head in H. apply str_of_nat_injective in H. lia.
Qed.

(** X22: a completed first exchange shows up at the top of the history
    tab: once [handle_first_message] has returned its two answers, the
    first expander of the tab is entry number 1, labelled with the
    timestamp of the exchange; it previews the news that was sent and,
    when its button is pressed, shows the two answers. *)
Theorem completed_exchange_in_history_tab (input : str) (env : Env) (w w' : World)
    (answer1 answer2 : str) (button : nat -> bool) :
  handle_first_message input env w = (w', Ok (Some (answer1, answer2))) ->
  exists r1 r2,
    nth_error (show_history (session_state w') button) 1
    = Some (history_entry button 0
              {| timestamp := now_strftime env; news := input;
                 impact_analysis := answer1; impact_reasoning := r1;
                 risk_analysis := answer2; risk_reasoning := r2 |}) /\
    List.length (show_history (session_state w') button)
    = 2 + List.length (history (session_state w)).
Proof.
  intros Hrun. apply handle_first_message_run in Hrun.
  inversion Hrun as [ | | | | stop r2 a2' _ _ _ Hacc Hs Hl]; subst.
  exists (reasoning_text (completions env 0)), r2.
  unfold show_history. rewrite Hs. unfold committed_session. cbn [history].
  destruct (history (session_state w) ++ _) as [|h0 hs] eqn:E.
  - apply app_eq_nil in E. destruct E as [_ E]. discriminate E.
  - rewrite <- E. rewrite rev_app_distr. cbn [List.rev app enumerate_from List.map].
    cbn [nth_error fst snd]. split; [reflexivity|].
    cbn [List.length]. rewrite length_map. f_equal. f_equal.
    assert (Hlen : forall A (l : list A) k, List.length (enumerate_from k l) = List.length l).
    { intros A l. induction l; intros k; cbn; [reflexivity|]. now rewrite IHl. }
    now rewrite Hlen, length_rev.
Qed.

Lemma completed_exchange_in_history_tab_witness :
  exists r1 r2,
    nth_error
      (show_history
         (session_state (fst (handle_first_message sample_news env_answered initial_world)))
         (fun _ => true)) 1
    = Some (history_entry (fun _ => true) 0
              {| timestamp := now_strftime env_answered; news := sample_news;
                 impact_analysis := utf8 "利好：银行"; impact_reasoning := r1;
                 risk_analysis := utf8 "风险：利率下行"; risk_reasoning := r2 |}) /\
    List.length
      (show_history
         (session_state (fst (handle_first_message sample_news env_answered initial_world)))
         (fun _ => true))
    = 2 + List.length (history (session_state initial_world)).
Proof.
  apply (completed_exchange_in_history_tab sample_news env_answered initial_world).
  vm_compute. reflexivity.
Defined.

(* ===================================================================== *)
(** ** What the handlers log, and what the loop leaves alone *)
(* ===================================================================== *)

(** X23: in a run of [handle_first_message] that returns its two answers,
    the two log records carry them: the output of the impact record is
    the first answer and the output of the risk record the second, each
    cut to 500 characters plus "..." when longer; both records name the
    model "deepseek-reasoner" and have status "success", and the input of
    the risk record is cut from the formatted prompt, the first answer
    and the risk prompt joined by blank lines. *)
Theorem first_exchange_log_contents (input : str) (env : Env) (w w' : World)
    (answer1 answer2 : str) :
  handle_first_message input env w = (w', Ok (Some (answer1, answer2))) ->
  exists l1 l2,
    logger w' = logger w ++ [l1; l2] /\
    truncated_500 answer1 (LogRecord.output l1) /\
    truncated_500 answer2 (LogRecord.output l2) /\
    truncated_500 (prompt_a_format input) (LogRecord.input l1) /\
    truncated_500
      (prompt_a_format input ++ [nl; nl] ++ answer1 ++ [nl; nl] ++ prompt_b)
      (LogRecord.input l2) /\
    LogRecord.model l1 = utf8 "deepseek-reasoner" /\
    LogRecord.model l2 = utf8 "deepseek-reasoner" /\
    LogRecord.status l1 = utf8 "success" /\
    LogRecord.status l2 = utf8 "success" /\
    LogRecord.duration_seconds l1 = (time_time env 1 - time_time env 0)%Z /\
    LogRecord.duration_seconds l2 = (time_time env 3 - time_time env 2)%Z.
Proof.
  intros Hrun. apply handle_first_message_run in Hrun.
  inversion Hrun as [ | | | | stop r2 a2' _ _ _ Hacc Hs Hl]; subst.
  do 2 eexists. split; [exact Hl|].
  unfold impact_log, risk_log, log_data.
  cbn [LogRecord.input LogRecord.output LogRecord.model LogRecord.status
       LogRecord.duration_seconds].
  repeat split; try apply truncated_500_plain; reflexivity.
Qed.

Lemma first_exchange_log_contents_witness :
  exists l1 l2,
    logger (fst (handle_first_message sample_news env_answered initial_world))
      = logger initial_world ++ [l1; l2] /\
    truncated_500 (utf8 "利好：银行") (LogRecord.output l1) /\
    truncated_500 (utf8 "风险：利率下行") (LogRecord.output l2) /\
    truncated_500 (prompt_a_format sample_news) (LogRecord.input l1) /\
    truncated_500
      (prompt_a_format sample_news ++ [nl; nl] ++ utf8 "利好：银行" ++ [nl; nl] ++ prompt_b)
      (LogRecord.input l2) /\
    LogRecord.model l1 = utf8 "deepseek-reasoner" /\
    LogRecord.model l2 = utf8 "deepseek-reasoner" /\
    LogRecord.status l1 = utf8 "success" /\
    LogRecord.status l2 = utf8 "success" /\
    LogRecord.duration_seconds l1
      = (time_time env_answered 1 - time_time env_answered 0)%Z /\
    LogRecord.duration_seconds l2
      = (time_time env_answered 3 - time_time env_answered 2)%Z.
Proof.
  apply (first_exchange_log_contents sample_news env_answered initial_world).
  vm_compute. reflexivity.
Defined.

(** X24: whatever the stream does (deliver chunks, see the stop flag come
    up, fail), the streaming loop writes to nothing but the page and never
    lowers the stop flag: the message list, the history list,
    [is_first_message], the log and the requests are as before, and it
    raises only what the stream raises. *)
Theorem stream_loop_only_draws (rslot aslot : Slot) (events : list Event)
    (reasoning answer : str) (w w' : World) (res : Result (str * str)) :
  stream_loop rslot aslot events reasoning answer w = (w', res) ->
  messages (session_state w') = messages (session_state w) /\
  history (session_state w') = history (session_state w) /\
  is_first_message (session_state w') = is_first_message (session_state w) /\
  logger w' = logger w /\
  requests w' = requests w /\
  (should_stop (session_state w) = true -> should_stop (session_state w') = true) /\
  (forall e, res = Raise e -> exists msg, e = ApiError msg /\ In (stream_error msg) events).
Proof.
  intros Hrun. pose proof (stream_loop_frame _ _ _ _ _ _ Hrun) as Hframe.
  destruct Hframe as (Hl & Hq & Hm & Hh & Hf & _ & Hup).
  repeat split; try assumption.
  intros e ->. clear Hl Hq Hm Hh Hf Hup.
  revert reasoning answer w Hrun.
  induction events as [|ev rest IH]; intros r a w H.
  - cbn in H. unfold_m. discriminate H.
  - destruct ev as [rc c| |msg]; cbn [stream_loop] in H; unfold_m.
    + destruct (should_stop (session_state w)); [discriminate H|].
      destruct (field_truthy rc); [|destruct (field_truthy c)];
        apply IH in H; destruct H as (msg & -> & Hin); exists msg;
        (split; [reflexivity|now right]).
    + apply IH in H. destruct H as (msg & -> & Hin). exists msg.
      split; [reflexivity|now right].
    + inversion H; subst. exists msg. split; [reflexivity|now left].
Qed.

Lemma stream_loop_only_draws_witness :
  logger (fst (stream_loop reasoning_placeholder message_placeholder
                 (completions env_first_stream_fails 0) [] [] initial_world))
  = logger initial_world.
Proof.
  apply (stream_loop_only_draws reasoning_placeholder message_placeholder
           (completions env_first_stream_fails 0) [] [] initial_world
           (res := snd (stream_loop reasoning_placeholder message_placeholder
                          (completions env_first_stream_fails 0) [] [] initial_world))).
  vm_compute. reflexivity.
Defined.

(* ===================================================================== *)
(** ** New conversation, then a send *)
(* ===================================================================== *)

(** X25: after the new-conversation button, the next send starts over:
    it is handled by [handle_first_message], the message list it leaves
    begins with the new user Message (nothing of the earlier conversation
    is kept), and the records of the earlier analyses are still in the
    history list, in place. *)
Theorem send_after_new_conversation (input : str) (env : Env) (w : World) :
  truthy input = true ->
  let w0 := fst (main_new_conversation w) in
  dispatch input env w0 = (handle_first_message input env ;; ret tt) w0 /\
  (exists rest,
     messages (session_state (fst (main_send input env w0)))
       = mkMessage user input :: rest /\ List.length rest <= 1) /\
  (exists extra,
     history (session_state (fst (main_send input env w0)))
       = history (session_state w) ++ extra /\ List.length extra <= 1).
Proof.
  intros Hin w0.
  assert (Hm0 : messages (session_state w0) = []) by reflexivity.
  assert (Hh0 : history (session_state w0) = history (session_state w)) by reflexivity.
  split; [reflexivity|].
  destruct (main_send_session input env w0 Hin) as (w1 & res & Hd & Hh & Hm & _).
  rewrite Hh, Hm. apply dispatch_session in Hd.
  destruct Hd as (Hhist & Hmsg & _). rewrite Hm0 in Hmsg. rewrite Hh0 in Hhist.
  split; assumption.
Qed.

Lemma send_after_new_conversation_witness :
  let w0 := fst (main_new_conversation
                   (fst (handle_first_message sample_news env_answered initial_world))) in
  dispatch sample_news env_answered w0
    = (handle_first_message sample_news env_answered ;; ret tt) w0 /\
  (exists rest,
     messages (session_state (fst (main_send sample_news env_answered w0)))
       = mkMessage user sample_news :: rest /\ List.length rest <= 1) /\
  (exists extra,
     history (session_state (fst (main_send sample_news env_answered w0)))
       = history (session_state
                    (fst (handle_first_message sample_news env_answered initial_world)))
           ++ extra /\ List.length extra <= 1).
Proof.
  apply send_after_new_conversation. reflexivity.
Defined.
